(** * Focus-aware crop planning of [cut.py]

    A shallow embedding of the crop geometry and of the per-image pipeline
    of [cut.py], followed by the properties of the crop planner and of the
    batch driver; then the file renaming, the captioning of one image and
    the cropping stage of [tagger.py], which calls that pipeline.

    Numbers.  Python integers are modelled by [Z].  The true divisions
    [fw / 2], [target_w / 2], [img_w / 2] produce floats; every float the
    planner computes is an integer multiple of one half, which an IEEE
    double represents exactly as long as its magnitude stays below 2^52
    (pixel coordinates are 32-bit).  They are therefore modelled by exact
    rationals [Q].  [int(...)] truncates toward zero. *)

From Stdlib Require Import ZArith QArith Qround List Bool String Ascii Lia.
From Stdlib Require Import DecimalString DecimalNat Permutation Sorted.
Import ListNotations.

Local Open Scope Z_scope.

(** ** Geometry *)

Module Geometry.

(** A rectangle [(x, y, w, h)], as the Python 4-tuples. *)
Definition Rect : Type := (Z * Z * Z * Z)%type.

Definition rect_x (r : Rect) : Z := let '(x, _, _, _) := r in x.
Definition rect_y (r : Rect) : Z := let '(_, y, _, _) := r in y.
Definition rect_w (r : Rect) : Z := let '(_, _, w, _) := r in w.
Definition rect_h (r : Rect) : Z := let '(_, _, _, h) := r in h.

(** Python's [int(f)] on a float: truncation toward zero. *)
Definition py_int (q : Q) : Z := Z.quot (Qnum q) (Zpos (Qden q)).

(** [a / 2] on integers (true division). *)
Definition half (a : Z) : Q := (inject_Z a / 2)%Q.

(** [calculate_crop_region(focus_box, image_size, target_size)]. *)
Definition calculate_crop_region
    (focus_box : Rect) (image_size target_size : Z * Z) : Rect :=
  let '(img_w, img_h) := image_size in
  let '(target_w, target_h) := target_size in
  let '(fx, fy, fw, fh) := focus_box in
  let center_x := (inject_Z fx + half fw)%Q in
  let center_y := (inject_Z fy + half fh)%Q in
  let start_x := py_int (center_x - half target_w)%Q in
  let start_y := py_int (center_y - half target_h)%Q in
  let start_x := Z.max 0 (Z.min start_x (img_w - target_w)) in
  let start_y := Z.max 0 (Z.min start_y (img_h - target_h)) in
  let crop_w := Z.min target_w img_w in
  let crop_h := Z.min target_h img_h in
  (start_x, start_y, crop_w, crop_h).

(** The center-crop fallback written inline in [process_image], taken when
    [get_focus_box] returned [None]. *)
Definition center_crop (image_size target_size : Z * Z) : Rect :=
  let '(img_w, img_h) := image_size in
  let center_x := half img_w in
  let center_y := half img_h in
  let start_x := py_int (center_x - half (fst target_size))%Q in
  let start_y := py_int (center_y - half (snd target_size))%Q in
  let start_x := Z.max 0 (Z.min start_x (img_w - fst target_size)) in
  let start_y := Z.max 0 (Z.min start_y (img_h - snd target_size)) in
  (start_x, start_y, fst target_size, snd target_size).

(** The [if focus_box is None: ... else: ...] of [process_image]: the crop
    planner as a function of the optional subject. *)
Definition plan_crop
    (focus_box : option Rect) (image_size target_size : Z * Z) : Rect :=
  match focus_box with
  | None => center_crop image_size target_size
  | Some box => calculate_crop_region box image_size target_size
  end.

(** Real-number midpoint of a rectangle. *)
Definition center (r : Rect) : Q * Q :=
  ((inject_Z (rect_x r) + half (rect_w r))%Q,
   (inject_Z (rect_y r) + half (rect_h r))%Q).

(** A rectangle lies inside a [W] x [H] image: all its pixels have
    coordinates in [0,W) x [0,H). *)
Definition inside (r : Rect) (image_size : Z * Z) : Prop :=
  0 <= rect_x r /\ rect_x r + rect_w r <= fst image_size /\
  0 <= rect_y r /\ rect_y r + rect_h r <= snd image_size.

(** [clamp(v, lo, hi)] as the specification uses it. *)
Definition clamp (v lo hi : Z) : Z :=
  if v <? lo then lo else if hi <? v then hi else v.

End Geometry.

(** ** The per-image pipeline and the batch driver *)

Module Pipeline.

Import Geometry.

(** A path, as the list of its components; [os.path.join] appends. *)
Definition path : Type := list string.

(** The exceptions the pipeline can meet; all derive from [Exception]. *)
Inductive exn : Type :=
| ValueError (input_path : path)   (* raised by [process_image] itself *)
| CvError                          (* [cv2.error] *)
| OSError.

Inductive outcome (A : Type) : Type :=
| Returns (a : A)
| Raises (e : exn).
Arguments Returns {A} a.
Arguments Raises {A} e.

(** A contour found in the thresholded saliency map, with what
    [cv2.contourArea] and [cv2.boundingRect] give on it. *)
Record Contour : Type := {
  contourArea : Q;
  boundingRect : Rect
}.

(** A decoded image: its [shape[:2]] (rows, columns) and what the OpenCV
    detectors answer on it. *)
Record Image : Type := {
  shape : Z * Z;
  detectMultiScale : outcome (list Rect);
  computeSaliency : outcome bool;
  findContours : outcome (list Contour)
}.

Definition with_shape (im : Image) (s : Z * Z) : Image :=
  {| shape := s;
     detectMultiScale := detectMultiScale im;
     computeSaliency := computeSaliency im;
     findContours := findContours im |}.

(** The outside world of one run: the file system and the decoder. *)
Record World : Type := {
  walk : path -> list (path * list string);   (* [os.walk]: (root, files) *)
  imread : path -> option Image;              (* [None]: undecodable *)
  makedirs : path -> outcome unit;
  imwrite : path -> outcome bool    (* [False]: not written, no exception *)
}.

(** What a run does to the outside world, in order. *)
Inductive event : Type :=
| EvImread (p : path)
| EvWarn (p : path) (img_size target : Z * Z)
| EvDetectFaces
| EvDetectSaliency
| EvSlice (r : Rect)
| EvResize (src_shape : Z * Z) (dsize : Z * Z)
| EvMakedirs (p : path)
| EvImwrite (p : path) (written_shape : Z * Z)
| EvError (p : path) (e : exn).

(** Computations that log events and may raise. *)
Definition M (A : Type) : Type := (list event * outcome A)%type.

Definition ret {A} (a : A) : M A := ([], Returns a).

Definition bind {A B} (m : M A) (f : A -> M B) : M B :=
  match m with
  | (l, Returns a) => let '(l', r) := f a in (l ++ l', r)
  | (l, Raises e) => (l, Raises e)
  end.

Definition emit (ev : event) : M unit := ([ev], Returns tt).
Definition raise {A} (e : exn) : M A := ([], Raises e).
Definition call {A} (o : outcome A) : M A := ([], o).

(** [try: m  except Exception as e: handler e]. *)
Definition try_except {A} (m : M A) (handler : exn -> M A) : M A :=
  match m with
  | (l, Returns a) => (l, Returns a)
  | (l, Raises e) => let '(l', r) := handler e in (l ++ l', r)
  end.

Notation "x <- m ;; k" := (bind m (fun x => k))
  (at level 61, m at next level, right associativity).
Notation "m ;;; k" := (bind m (fun _ => k))
  (at level 61, right associativity).

(** [for x in l: body x]. *)
Fixpoint for_each {A} (l : list A) (body : A -> M unit) : M unit :=
  match l with
  | [] => ret tt
  | x :: rest => body x ;;; for_each rest body
  end.

(** Python's [max(l, key=key)]: the first element whose key is largest;
    [gt] is [>] on keys.  [None] stands for the empty iterable. *)
Fixpoint max_from {A K} (gt : K -> K -> bool) (key : A -> K)
    (best : A) (l : list A) : A :=
  match l with
  | [] => best
  | x :: rest =>
      max_from gt key (if gt (key x) (key best) then x else best) rest
  end.

Definition py_max {A K} (gt : K -> K -> bool) (key : A -> K)
    (l : list A) : option A :=
  match l with
  | [] => None
  | x :: rest => Some (max_from gt key x rest)
  end.

Definition Zgt (a b : Z) : bool := b <? a.
Definition Qgt (a b : Q) : bool := negb (Qle_bool a b).

(** The key [lambda x: x[2] * x[3]].  The detector's rows are 32-bit; the
    product of the extents of a face that lies inside an image of fewer
    than 2^31 pixels does not wrap, so it is taken in [Z]. *)
Definition face_area (x : Rect) : Z := rect_w x * rect_h x.

(** [detect_faces(image)]. *)
Definition detect_faces (image : Image) : M (option Rect) :=
  emit EvDetectFaces ;;;
  faces <- call (detectMultiScale image) ;;
  if (0 <? Z.of_nat (List.length faces))
  then ret (py_max Zgt face_area faces)
  else ret None.

(** [detect_saliency(image)]. *)
Definition detect_saliency (image : Image) : M (option Rect) :=
  emit EvDetectSaliency ;;;
  success <- call (computeSaliency image) ;;
  if negb success then ret None
  else
    contours <- call (findContours image) ;;
    match py_max Qgt contourArea contours with
    | Some c => ret (Some (boundingRect c))
    | None => ret None
    end.

(** [get_focus_box(image)]. *)
Definition get_focus_box (image : Image) : M (option Rect) :=
  face_box <- detect_faces image ;;
  match face_box with
  | Some box => ret (Some box)
  | None => detect_saliency image
  end.

(** Length of the Python slice [start:stop] of a sequence of [n] items. *)
Definition slice_len (start stop n : Z) : Z :=
  let norm i := if i <? 0 then Z.max 0 (i + n) else Z.min i n in
  Z.max 0 (norm stop - norm start).

(** [image[y:y+h, x:x+w]]. *)
Definition slice (image : Image) (r : Rect) : M Image :=
  let '(x, y, w, h) := r in
  let '(rows, cols) := shape image in
  emit (EvSlice r) ;;;
  ret (with_shape image (slice_len y (y + h) rows, slice_len x (x + w) cols)).

(** [cv2.resize(src, dsize, interpolation=INTER_LANCZOS4)]: fails on an
    empty source or an empty [dsize], otherwise yields an image of
    [dsize = (width, height)]. *)
Definition resize (src : Image) (dsize : Z * Z) : M Image :=
  let '(rows, cols) := shape src in
  let '(dw, dh) := dsize in
  if (rows <=? 0) || (cols <=? 0) || (dw <=? 0) || (dh <=? 0)
  then raise CvError
  else emit (EvResize (shape src) dsize) ;;; ret (with_shape src (dh, dw)).

(** [os.path.dirname]. *)
Definition dirname (p : path) : path := removelast p.

(** [os.makedirs(os.path.dirname(output_path), exist_ok=True)] followed by
    [cv2.imwrite(output_path, resized)].  [cv2.imwrite] answers [False]
    when it could not write; the source drops the answer, so the run goes
    on as after a write, only no image is there: [EvImwrite] stands for an
    image written. *)
Definition save (w : World) (output_path : path) (resized : Image) : M unit :=
  call (makedirs w (dirname output_path)) ;;;
  emit (EvMakedirs (dirname output_path)) ;;;
  written <- call (imwrite w output_path) ;;
  if written : bool then emit (EvImwrite output_path (shape resized))
  else ret tt.

(** The [try] block of [process_image]. *)
Definition process_image_body
    (w : World) (input_path output_path : path) (target_size : Z * Z)
    : M unit :=
  emit (EvImread input_path) ;;;
  image <- match imread w input_path with
           | None => raise (ValueError input_path)
           | Some image => ret image
           end ;;
  let '(img_h, img_w) := shape image in
  let '(target_w, target_h) := target_size in
  if (img_w <? target_w) || (img_h <? target_h) then
    emit (EvWarn input_path (img_w, img_h) (target_w, target_h)) ;;;
    resized <- resize image target_size ;;
    save w output_path resized
  else
    focus_box <- get_focus_box image ;;
    let crop_region := plan_crop focus_box (img_w, img_h) target_size in
    cropped <- slice image crop_region ;;
    resized <- resize cropped target_size ;;
    save w output_path resized.

(** [process_image(input_path, output_path, target_size)]. *)
Definition process_image
    (w : World) (input_path output_path : path) (target_size : Z * Z)
    : M unit :=
  try_except (process_image_body w input_path output_path target_size)
             (fun e => emit (EvError input_path e)).

(** [str.lower] on ASCII letters and [str.endswith]. *)
Definition lower_ascii (c : ascii) : ascii :=
  let n := nat_of_ascii c in
  if ((65 <=? n) && (n <=? 90))%nat then ascii_of_nat (n + 32) else c.

Fixpoint lower (s : string) : string :=
  match s with
  | EmptyString => EmptyString
  | String c rest => String (lower_ascii c) (lower rest)
  end.

Definition endswith (s suffix : string) : bool :=
  let n := String.length s in
  let k := String.length suffix in
  ((k <=? n)%nat && String.eqb (substring (n - k) k s) suffix)%bool.

Definition supported_extensions : list string :=
  [".jpg"; ".jpeg"; ".png"]%string.

Definition supported (file : string) : bool :=
  existsb (endswith (lower file)) supported_extensions.

(** [os.path.relpath(p, start)] for a [p] below [start]. *)
Definition relpath (p start : path) : path := skipn (List.length start) p.

(** The list [file_paths] built by the walk of [bulk_process]. *)
Definition collect_files (w : World) (input_dir : path) (recursive : bool)
    : list path :=
  let entries := walk w input_dir in
  let entries := if recursive then entries else firstn 1 entries in
  flat_map (fun '(root, files) =>
              map (fun file => root ++ [file]) (filter supported files))
           entries.

(** The output path of one input path.  The source then swaps the
    extension of the output path for the one of the input path; both end
    with the same file name, so the path is unchanged. *)
Definition output_path_of (input_dir output_dir input_path : path) : path :=
  output_dir ++ relpath input_path input_dir.

(** [bulk_process(input_dir, output_dir, target_size, recursive)]. *)
Definition bulk_process
    (w : World) (input_dir output_dir : path) (target_size : Z * Z)
    (recursive : bool) : M unit :=
  let file_paths := collect_files w input_dir recursive in
  for_each file_paths (fun input_path =>
    let output_path := output_path_of input_dir output_dir input_path in
    process_image w input_path output_path target_size).

(** Observations on a log. *)
Definition is_write (ev : event) : bool :=
  match ev with EvImwrite _ _ => true | _ => false end.
Definition is_error (ev : event) : bool :=
  match ev with EvError _ _ => true | _ => false end.
Definition is_detect (ev : event) : bool :=
  match ev with EvDetectFaces | EvDetectSaliency => true | _ => false end.
Definition is_slice (ev : event) : bool :=
  match ev with EvSlice _ => true | _ => false end.

Definition count_events (f : event -> bool) (log : list event) : nat :=
  List.length (filter f log).

Definition returns {A} (m : M A) : bool :=
  match snd m with Returns _ => true | Raises _ => false end.

(** A computation that neither writes an image nor logs an error. *)
Definition quiet {A} (m : M A) : Prop :=
  count_events is_write (fst m) = 0%nat /\
  count_events is_error (fst m) = 0%nat.

(** A computation that writes at most one image when it returns, none when
    it raises, and logs no error itself. *)
Definition writes_once (m : M unit) : Prop :=
  (count_events is_write (fst m) <= (if returns m then 1 else 0))%nat /\
  count_events is_error (fst m) = 0%nat.

(** A computation that writes exactly one image when it returns, none when
    it raises, and logs no error itself. *)
Definition writes_exactly_once (m : M unit) : Prop :=
  count_events is_write (fst m) = (if returns m then 1%nat else 0%nat) /\
  count_events is_error (fst m) = 0%nat.

Definition is_returns {A} (o : outcome A) : bool :=
  match o with Returns _ => true | Raises _ => false end.

(** The answer of [cv2.imwrite] is [True]. *)
Definition is_written (o : outcome bool) : bool :=
  match o with Returns true => true | _ => false end.

(** A file the pipeline can handle: it decodes to a non-empty image, the
    detectors answer, and its output can be written. *)
Definition valid_file (w : World) (input_dir output_dir : path)
    (input_path : path) : bool :=
  match imread w input_path with
  | None => false
  | Some image =>
      (0 <? fst (shape image)) && (0 <? snd (shape image)) &&
      is_returns (detectMultiScale image) &&
      is_returns (computeSaliency image) &&
      is_returns (findContours image) &&
      is_returns (makedirs w (dirname
                    (output_path_of input_dir output_dir input_path))) &&
      is_written (imwrite w (output_path_of input_dir output_dir input_path))
  end.

(** A file that goes through the pipeline up to [cv2.imwrite], which
    answers [False]: decoded, detectors and [makedirs] fine, nothing
    written. *)
Definition unwritten_file (w : World) (input_dir output_dir : path)
    (input_path : path) : bool :=
  match imread w input_path with
  | None => false
  | Some image =>
      (0 <? fst (shape image)) && (0 <? snd (shape image)) &&
      is_returns (detectMultiScale image) &&
      is_returns (computeSaliency image) &&
      is_returns (findContours image) &&
      is_returns (makedirs w (dirname
                    (output_path_of input_dir output_dir input_path))) &&
      match imwrite w (output_path_of input_dir output_dir input_path) with
      | Returns false => true
      | _ => false
      end
  end.

Definition undecodable (w : World) (input_path : path) : bool :=
  match imread w input_path with None => true | Some _ => false end.

End Pipeline.

(** ** A sample run *)

Module Examples.

Import Geometry Pipeline.

Definition path_eqb (p q : path) : bool :=
  if list_eq_dec string_dec p q then true else false.

(** An 800x600 photograph with two faces, of areas 100 and 400. *)
Definition photo : Image :=
  {| shape := (600, 800);
     detectMultiScale := Returns [(40, 50, 10, 10); (500, 300, 20, 20)];
     computeSaliency := Returns true;
     findContours := Returns [] |}.

(** A 300x300 thumbnail on which nothing is detected. *)
Definition thumbnail : Image :=
  {| shape := (300, 300);
     detectMultiScale := Returns [];
     computeSaliency := Returns false;
     findContours := Returns [] |}.

(** A folder of ten pictures and a text file; [broken.png] does not
    decode. *)
Definition folder : World :=
  {| walk := fun _ =>
       [(["in"], ["a.jpg"; "b.JPG"; "c.png"; "broken.png"; "notes.txt";
                  "d.jpeg"; "e.jpg"]);
        (["in"; "more"], ["f.jpg"; "g.png"; "h.jpg"; "thumb.jpg"])]%string;
     imread := fun p =>
       if path_eqb p ["in"; "broken.png"]%string then None
       else if path_eqb p ["in"; "more"; "thumb.jpg"]%string
            then Some thumbnail
            else Some photo;
     makedirs := fun _ => Returns tt;
     imwrite := fun _ => Returns true |}.

(** The same folder, written to a place where [cv2.imwrite] cannot write
    [a.jpg]: it answers [False] there. *)
Definition folder_unwritable : World :=
  {| walk := walk folder;
     imread := imread folder;
     makedirs := fun _ => Returns tt;
     imwrite := fun p =>
       if path_eqb p ["out"; "a.jpg"]%string then Returns false
       else Returns true |}.

End Examples.

(** ** More observations on logs *)

Module Logs.

Import Pipeline.

Definition is_read (ev : event) : bool :=
  match ev with EvImread _ => true | _ => false end.

Definition is_warn (ev : event) : bool :=
  match ev with EvWarn _ _ _ => true | _ => false end.

(** The entries of [os.walk] that [bulk_process] looks at. *)
Definition walked (w : World) (input_dir : path) (recursive : bool)
    : list (path * list string) :=
  if recursive then walk w input_dir else firstn 1 (walk w input_dir).

End Logs.

(** ** The captioning tool [tagger.py] *)

Module Tagger.

Import Pipeline.

Local Open Scope string_scope.

Definition image_extensions : list string :=
  [".jpg"; ".jpeg"; ".png"; ".bmp"; ".webp"].

(** *** [os.path.splitext] on a file name *)

(** Position of the last dot. *)
Fixpoint last_dot (s : string) : option nat :=
  match s with
  | EmptyString => None
  | String c rest =>
      match last_dot rest with
      | Some i => Some (S i)
      | None => if Ascii.eqb c "." then Some O else None
      end
  end.

Fixpoint all_dots (s : string) : bool :=
  match s with
  | EmptyString => true
  | String c rest => Ascii.eqb c "." && all_dots rest
  end.

(** The extension starts at the last dot, unless only dots come before
    it. *)
Definition splitext (p : string) : string * string :=
  match last_dot p with
  | None => (p, "")
  | Some d =>
      if all_dots (substring 0 d p) then (p, "")
      else (substring 0 d p, substring d (String.length p - d) p)
  end.

(** *** [rename_images] *)

Definition is_digit (c : ascii) : bool :=
  let n := nat_of_ascii c in ((48 <=? n) && (n <=? 57))%nat.

(** File names are the UTF-8 bytes of the Python strings.  The character
    at the head of a string, as its code point, with the rest; [None]
    where the bytes are not a well-formed UTF-8 character (Python then
    holds an escaped byte there, which is no digit). *)
Definition continuation (c : ascii) : option N :=
  let n := N_of_ascii c in
  if ((128 <=? n) && (n <? 192))%N then Some (n - 128)%N else None.

Definition decode_char (s : string) : option (N * string) :=
  match s with
  | EmptyString => None
  | String b0 r0 =>
      let n0 := N_of_ascii b0 in
      if (n0 <? 128)%N then Some (n0, r0)
      else if (n0 <? 192)%N then None
      else if (n0 <? 224)%N then
        match r0 with
        | String b1 r1 =>
            match continuation b1 with
            | Some n1 =>
                let cp := ((n0 - 192) * 64 + n1)%N in
                if (128 <=? cp)%N then Some (cp, r1) else None
            | None => None
            end
        | _ => None
        end
      else if (n0 <? 240)%N then
        match r0 with
        | String b1 (String b2 r2) =>
            match continuation b1, continuation b2 with
            | Some n1, Some n2 =>
                let cp := (((n0 - 224) * 64 + n1) * 64 + n2)%N in
                if ((2048 <=? cp) && negb ((55296 <=? cp) && (cp <? 57344)))%N
                then Some (cp, r2) else None
            | _, _ => None
            end
        | _ => None
        end
      else if (n0 <? 248)%N then
        match r0 with
        | String b1 (String b2 (String b3 r3)) =>
            match continuation b1, continuation b2, continuation b3 with
            | Some n1, Some n2, Some n3 =>
                let cp :=
                  ((((n0 - 240) * 64 + n1) * 64 + n2) * 64 + n3)%N in
                if ((65536 <=? cp) && (cp <? 1114112))%N
                then Some (cp, r3) else None
            | _, _, _ => None
            end
        | _ => None
        end
      else None
  end.

(** The decimal digits that [\d] matches in a Python string: the
    characters of general category Nd of the Unicode Character Database
    (version 14.0, that of Python 3.11).  They come in runs of ten, given
    by their first code point, and the fifty mathematical digits from
    U+1D7CE on. *)
Definition decimal_digit_runs : list N :=
  [
    48; 1632; 1776; 1984; 2406; 2534; 2662; 2790; 2918; 3046; 3174; 3302;
    3430; 3558; 3664; 3792; 3872; 4160; 4240; 6112; 6160; 6470; 6608;
    6784; 6800; 6992; 7088; 7232; 7248; 42528; 43216; 43264; 43472; 43504;
    43600; 44016; 65296; 66720; 68912; 69734; 69872; 69942; 70096; 70384;
    70736; 70864; 71248; 71360; 71472; 71904; 72016; 72784; 73040; 73120;
    92768; 92864; 93008; 123200; 123632; 125264; 130032
  ]%N.

Definition is_decimal (cp : N) : bool :=
  existsb (fun start => (start <=? cp) && (cp <? start + 10))%N
          decimal_digit_runs
  || ((120782 <=? cp) && (cp <? 120832))%N.

(** [re.match(r'^\d{3}$', name)]: three decimal digits, possibly followed
    by one final newline, which [$] lets through. *)
Definition three_digits (name : string) : bool :=
  match decode_char name with
  | Some (a, r1) =>
      match decode_char r1 with
      | Some (b, r2) =>
          match decode_char r2 with
          | Some (c, rest) =>
              is_decimal a && is_decimal b && is_decimal c &&
              ((rest =? "") || (rest =? String (ascii_of_nat 10) ""))
          | None => false
          end
      | None => false
      end
  | None => false
  end.

(** [os.listdir(folder_path)], each name with [os.path.isdir] of it. *)
Definition Listing : Type := list (string * bool).

(** The test of the first loop: the entry goes to [to_rename]. *)
Definition wanted (entry : string * bool) : bool :=
  let '(f, isdir) := entry in
  if isdir then false
  else
    let '(name, ext) := splitext f in
    if negb (existsb (String.eqb (lower ext)) image_extensions) then false
    else if three_digits name then false
    else true.

(** [list.sort()] on strings. *)
Fixpoint insert (x : string) (l : list string) : list string :=
  match l with
  | [] => [x]
  | y :: rest => if String.leb x y then x :: l else y :: insert x rest
  end.

Fixpoint sort (l : list string) : list string :=
  match l with
  | [] => []
  | x :: rest => insert x (sort rest)
  end.

Definition to_rename (files : Listing) : list string :=
  sort (map fst (filter wanted files)).

Fixpoint zeros (n : nat) : string :=
  match n with
  | O => ""
  | S k => String "0" (zeros k)
  end.

(** [f"{idx:03d}"]. *)
Definition format_03d (idx : nat) : string :=
  let digits := NilEmpty.string_of_uint (Nat.to_uint idx) in
  zeros (3 - String.length digits) ++ digits.

(** [enumerate(l, start)]. *)
Definition enumerate {A} (start : nat) (l : list A) : list (nat * A) :=
  combine (seq start (List.length l)) l.

Definition new_name (idx : nat) (filename : string) : string :=
  format_03d idx ++ lower (snd (splitext filename)).

(** The calls [os.rename(old_path, new_path)] of the second loop, in
    order, as pairs of file names of the folder. *)
Definition renames (files : Listing) : list (string * string) :=
  filter (fun '(old, new) => negb (old =? new))
    (map (fun '(idx, filename) => (filename, new_name idx filename))
         (enumerate 1 (to_rename files))).

(** The folder after [os.rename(old, new)], [new] being free. *)
Definition os_rename (old new : string) (files : Listing) : Listing :=
  map (fun entry => if fst entry =? old then (new, snd entry) else entry)
      files.

Definition exists_name (f : string) (files : Listing) : bool :=
  existsb (fun entry => fst entry =? f) files.

(** What [os.rename] does onto an existing name depends on the platform
    (replace, or raise); a run is followed up to there. *)
Inductive rename_result : Type :=
| Completed (after : Listing)
| Clash (old new : string) (before : Listing).

Fixpoint run_renames (ops : list (string * string)) (files : Listing)
    : rename_result :=
  match ops with
  | [] => Completed files
  | (old, new) :: rest =>
      if exists_name new files then Clash old new files
      else run_renames rest (os_rename old new files)
  end.

(** [rename_images(folder_path)], on the listing of the folder. *)
Definition rename_images (files : Listing) : rename_result :=
  run_renames (renames files) files.

(** *** Captions *)

(** The [mime_type] of [image_to_base64]. *)
Definition mime_type (file_name : string) : string :=
  if existsb (endswith (lower file_name)) [".jpg"; ".jpeg"]
  then "image/jpeg" else "image/png".

Inductive failure : Type :=
| FileError         (* [OSError] of [open] or [write] *)
| ServiceError      (* raised by the client *)
| IndexError.       (* [choices[0]] on an empty list *)

(** The collaborators of the captioning: the file system and the remote
    model. *)
Record Service : Type := {
  read_base64 : path -> string + failure;
  chat_completion : string -> string -> list (option string) + failure;
  write_text : path -> string -> unit + failure
}.

Inductive tevent : Type :=
| PrintProcessing (p : path)
| PrintError (p : path) (f : failure)
| WriteText (p : path) (content : string)
| PrintDone (p : path)
| PrintSkipped (p : path).

(** [image_to_base64(file_path)]. *)
Definition image_to_base64 (sv : Service) (file_path : path)
    : string + failure :=
  match read_base64 sv file_path with
  | inl encoded_str =>
      inl ("data:" ++ mime_type (last file_path "") ++ ";base64,"
           ++ encoded_str)
  | inr f => inr f
  end.

(** [describe_image(image_path, api_key)]: [None] on any exception. *)
Definition describe_image (sv : Service) (image_path : path)
    (api_key : string) : list tevent * option string :=
  let attempt :=
    match image_to_base64 sv image_path with
    | inr f => inr f
    | inl base64_image =>
        match chat_completion sv api_key base64_image with
        | inr f => inr f
        | inl [] => inr IndexError
        | inl (content :: _) => inl content
        end
    end in
  match attempt with
  | inl description => ([], description)
  | inr f => ([PrintError image_path f], None)
  end.

(** [os.path.splitext(image_path)[0] + ".txt"]. *)
Definition txt_name (file_name : string) : string :=
  fst (splitext file_name) ++ ".txt".

Definition txt_path (image_path : path) : path :=
  (removelast image_path ++ [txt_name (last image_path "")])%list.

(** [process_image(image_path, api_key)] of [tagger.py]; an exception of
    the write is not caught. *)
Definition process_image (sv : Service) (image_path : path)
    (api_key : string) : list tevent * (unit + failure) :=
  let '(log, description) := describe_image sv image_path api_key in
  let log := PrintProcessing image_path :: log in
  match description with
  | None => ((log ++ [PrintSkipped image_path])%list, inl tt)
  | Some text =>
      if text =? "" then ((log ++ [PrintSkipped image_path])%list, inl tt)
      else
        match write_text sv (txt_path image_path) text with
        | inr f => (log, inr f)
        | inl _ =>
            ((log ++ [WriteText (txt_path image_path) text;
                      PrintDone (txt_path image_path)])%list, inl tt)
        end
  end.

(** *** The cropping stage of [batch_process_images] *)

Definition image_files (folder_path : path) (names : list string)
    : list path :=
  map (fun f => (folder_path ++ [f])%list)
      (filter (fun f => existsb (endswith (lower f)) image_extensions)
              names).

(** The [if target_size:] block before the captioning: every image file is
    cropped into the folder [output], and the cropped paths are the files
    to caption. *)
Definition crop_stage (w : World) (folder_path : path)
    (names : list string) (target_size : Z * Z) : M (list path) :=
  let temp_folder := (folder_path ++ ["output"])%list in
  bind (call (makedirs w temp_folder)) (fun _ =>
  bind (emit (EvMakedirs temp_folder)) (fun _ =>
  bind (for_each (image_files folder_path names) (fun image_path =>
          let filename := last image_path "" in
          let output_path := (temp_folder ++ [filename])%list in
          Pipeline.process_image w image_path output_path target_size))
       (fun _ =>
  ret (map (fun image_path => (temp_folder ++ [last image_path ""])%list)
           (image_files folder_path names))))).

End Tagger.

Import Geometry Pipeline.

(** ** Facts about the geometry *)

Ltac quot_lia := Z.to_euclidean_division_equations; lia.

(** The truncated candidate origin, in integers: twice the float
    [f + fw/2 - tw/2] is the integer [2 * f + fw - tw]. *)
Lemma start_trunc (f fw tw : Z) :
  py_int (inject_Z f + half fw - half tw)%Q = Z.quot (2 * f + fw - tw) 2.
Proof.
  unfold py_int, half. cbn.
  replace ((f * 2 + fw * 1 * 1) * 2 + - (tw * 1) * 2)
    with ((2 * f + fw - tw) * 2) by ring.
  change 4 with (2 * 2).
  rewrite Z.quot_mul_cancel_r by lia. reflexivity.
Qed.

Lemma start_floor (f fw tw : Z) :
  Qfloor (inject_Z f + half fw - half tw)%Q = (2 * f + fw - tw) / 2.
Proof.
  unfold Qfloor, half. cbn.
  replace ((f * 2 + fw * 1 * 1) * 2 + - (tw * 1) * 2)
    with ((2 * f + fw - tw) * 2) by ring.
  change 4 with (2 * 2).
  rewrite Z.div_mul_cancel_r by lia. reflexivity.
Qed.

Lemma center_trunc (w tw : Z) :
  py_int (half w - half tw)%Q = Z.quot (w - tw) 2.
Proof.
  unfold py_int, half. cbn.
  replace (w * 1 * 2 + - (tw * 1) * 2) with ((w - tw) * 2) by ring.
  change 4 with (2 * 2).
  rewrite Z.quot_mul_cancel_r by lia. reflexivity.
Qed.

(** [calculate_crop_region] and the fallback, with the floats gone. *)
Lemma calculate_crop_region_Z (fx fy fw fh W H tw th : Z) :
  calculate_crop_region (fx, fy, fw, fh) (W, H) (tw, th) =
  (Z.max 0 (Z.min (Z.quot (2 * fx + fw - tw) 2) (W - tw)),
   Z.max 0 (Z.min (Z.quot (2 * fy + fh - th) 2) (H - th)),
   Z.min tw W, Z.min th H).
Proof.
  unfold calculate_crop_region. rewrite !start_trunc. reflexivity.
Qed.

Lemma center_crop_Z (W H tw th : Z) :
  center_crop (W, H) (tw, th) =
  (Z.max 0 (Z.min (Z.quot (W - tw) 2) (W - tw)),
   Z.max 0 (Z.min (Z.quot (H - th) 2) (H - th)),
   tw, th).
Proof.
  unfold center_crop. cbn [fst snd]. rewrite !center_trunc. reflexivity.
Qed.

(** The clamp of the source, [max(0, min(v, hi))], is the usual clamp to
    [[0, hi]] when the interval is not empty. *)
Lemma max_min_clamp (v hi : Z) :
  0 <= hi -> Z.max 0 (Z.min v hi) = clamp v 0 hi.
Proof.
  intros Hhi. unfold clamp.
  destruct (Z.ltb_spec v 0); [lia|].
  destruct (Z.ltb_spec hi v); lia.
Qed.

(** Truncation and floor differ only below zero, where the clamp sends
    both to zero. *)
Lemma clamp_quot_div (n hi : Z) :
  0 <= hi -> clamp (Z.quot n 2) 0 hi = clamp (n / 2) 0 hi.
Proof.
  intros Hhi. unfold clamp.
  destruct (Z.ltb_spec (Z.quot n 2) 0), (Z.ltb_spec (n / 2) 0);
    try destruct (Z.ltb_spec hi (Z.quot n 2));
    try destruct (Z.ltb_spec hi (n / 2)); quot_lia.
Qed.

Lemma half_le_center (f fw tw : Z) :
  (half tw <= inject_Z f + half fw)%Q <-> tw <= 2 * f + fw.
Proof. unfold Qle, half. cbn -[Z.mul]. lia. Qed.

Lemma center_le_edge (f fw tw W : Z) :
  (inject_Z f + half fw <= inject_Z W - half tw)%Q <->
  2 * f + fw <= 2 * W - tw.
Proof. unfold Qle, half. cbn -[Z.mul]. lia. Qed.

(** ** The crop planner *)

(** The planned crop fits in the image when the target does. *)
Lemma plan_crop_fits (subject : option Rect) (W H target_w target_h : Z) :
  0 < target_w <= W -> 0 < target_h <= H ->
  let r := plan_crop subject (W, H) (target_w, target_h) in
  inside r (W, H) /\ rect_w r = target_w /\ rect_h r = target_h.
Proof.
  intros Hw Hh. destruct subject as [[[[fx fy] fw] fh]|]; cbn zeta;
    unfold plan_crop, inside.
  - rewrite calculate_crop_region_Z. cbn [rect_x rect_y rect_w rect_h fst snd].
    lia.
  - rewrite center_crop_Z. cbn [rect_x rect_y rect_w rect_h fst snd]. lia.
Qed.

(** C1 (P1, bounds).  When the target fits in the image, the planner
    returns, for a subject rectangle as for none, a rectangle contained in
    [0,W) x [0,H) whose extent is exactly the target size. *)
Theorem plan_crop_in_bounds
    (subject : option Rect) (W H target_w target_h : Z) :
  0 < target_w <= W -> 0 < target_h <= H ->
  let r := plan_crop subject (W, H) (target_w, target_h) in
  inside r (W, H) /\ rect_w r = target_w /\ rect_h r = target_h.
Proof. exact (plan_crop_fits subject W H target_w target_h). Qed.

Lemma plan_crop_in_bounds_witness :
  let r := plan_crop (Some (700, 10, 80, 60)) (800, 600) (512, 512) in
  inside r (800, 600) /\ rect_w r = 512 /\ rect_h r = 512.
Proof. apply (plan_crop_in_bounds (Some (700, 10, 80, 60))); lia. Defined.

(** C2 (clamped origin, P3).  When the target fits in the image, the origin
    of the crop planned for a subject rectangle is
    [clamp(floor(cx - target_w/2), 0, W - target_w)] in x and likewise in y,
    with [(cx, cy)] the real midpoint of the subject; and a subject whose
    midpoint is (5,5), on a 1000x1000 image with target 200x200, gets the
    origin (0,0). *)
Theorem crop_origin_clamped_floor :
  (forall (fx fy fw fh W H target_w target_h : Z),
     target_w <= W -> target_h <= H ->
     let subject := (fx, fy, fw, fh) in
     let r := plan_crop (Some subject) (W, H) (target_w, target_h) in
     rect_x r =
       clamp (Qfloor (fst (center subject) - half target_w)%Q)
             0 (W - target_w) /\
     rect_y r =
       clamp (Qfloor (snd (center subject) - half target_h)%Q)
             0 (H - target_h)) /\
  (forall subject : Rect,
     (fst (center subject) == 5)%Q -> (snd (center subject) == 5)%Q ->
     let r := plan_crop (Some subject) (1000, 1000) (200, 200) in
     rect_x r = 0 /\ rect_y r = 0).
Proof.
  split.
  - intros fx fy fw fh W H tw th Hw Hh. cbn zeta. unfold plan_crop, center.
    rewrite calculate_crop_region_Z.
    cbn [rect_x rect_y rect_w rect_h fst snd].
    rewrite !start_floor, !max_min_clamp, !clamp_quot_div by lia.
    split; reflexivity.
  - intros [[[fx fy] fw] fh]. unfold center.
    cbn [rect_x rect_y rect_w rect_h fst snd]. intros Hx Hy. cbn zeta.
    unfold plan_crop. rewrite calculate_crop_region_Z.
    cbn [rect_x rect_y rect_w rect_h].
    unfold Qeq, half in Hx, Hy. cbn -[Z.mul] in Hx, Hy. quot_lia.
Qed.

Lemma crop_origin_clamped_floor_witness :
  (let subject := (0, 0, 10, 10) in
   let r := plan_crop (Some subject) (1000, 1000) (200, 200) in
   rect_x r = clamp (Qfloor (fst (center subject) - half 200)%Q) 0 800 /\
   rect_y r = clamp (Qfloor (snd (center subject) - half 200)%Q) 0 800) /\
  (let r := plan_crop (Some (0, 0, 10, 10)) (1000, 1000) (200, 200) in
   rect_x r = 0 /\ rect_y r = 0).
Proof.
  split.
  - apply (proj1 crop_origin_clamped_floor 0 0 10 10 1000 1000 200 200); lia.
  - apply (proj2 crop_origin_clamped_floor (0, 0, 10, 10)); reflexivity.
Defined.

(** One half, the offset lost by truncation when the candidate origin
    falls between two pixels. *)
Lemma quot2_parity (n : Z) :
  0 <= n -> 2 * Z.quot n 2 = n - (if Z.even n then 0 else 1).
Proof.
  intros Hn. destruct (Z.even n) eqn:E.
  - apply Z.even_spec in E. destruct E as [k ->]. quot_lia.
  - assert (O : Z.odd n = true) by (rewrite <- Z.negb_even, E; reflexivity).
    apply Z.odd_spec in O. destruct O as [k ->]. quot_lia.
Qed.

Lemma even_shift (f a b : Z) : Z.even (2 * f + a - b) = Z.even (a - b).
Proof.
  replace (2 * f + a - b) with (a - b + 2 * f) by ring.
  rewrite Z.even_add_mul_2. reflexivity.
Qed.

(** Midpoint of a crop of width [tw] that starts at the truncated
    candidate origin. *)
Lemma crop_midpoint (f fw tw : Z) :
  0 <= 2 * f + fw - tw ->
  (inject_Z (Z.quot (2 * f + fw - tw) 2) + half tw ==
   inject_Z f + half fw - (if Z.even (fw - tw) then 0 else 1 # 2))%Q.
Proof.
  intros Hn. pose proof (quot2_parity _ Hn) as P.
  rewrite even_shift in P.
  destruct (Z.even (fw - tw)); unfold Qeq, half; cbn -[Z.mul Z.quot]; lia.
Qed.

(** C3 (P2, centering), as the code has it.  For a subject whose midpoint
    lies at least half a target away from every image edge, the midpoint of
    the planned crop is the subject's midpoint when the subject's extent and
    the target's have the same parity, and half a pixel before it
    otherwise. *)
Theorem crop_center_follows_subject
    (fx fy fw fh W H target_w target_h : Z) :
  let subject := (fx, fy, fw, fh) in
  target_w <= W -> target_h <= H ->
  (half target_w <= fst (center subject))%Q ->
  (fst (center subject) <= inject_Z W - half target_w)%Q ->
  (half target_h <= snd (center subject))%Q ->
  (snd (center subject) <= inject_Z H - half target_h)%Q ->
  let r := plan_crop (Some subject) (W, H) (target_w, target_h) in
  (fst (center r) ==
     fst (center subject) - (if Z.even (fw - target_w) then 0 else 1 # 2))%Q /\
  (snd (center r) ==
     snd (center subject) - (if Z.even (fh - target_h) then 0 else 1 # 2))%Q.
Proof.
  cbn zeta. unfold center at 1 2 3 4.
  cbn [rect_x rect_y rect_w rect_h fst snd].
  intros Hw Hh Hx1 Hx2 Hy1 Hy2.
  apply half_le_center in Hx1, Hy1. apply center_le_edge in Hx2, Hy2.
  unfold plan_crop. rewrite calculate_crop_region_Z. unfold center.
  cbn [rect_x rect_y rect_w rect_h fst snd].
  replace (Z.max 0 (Z.min (Z.quot (2 * fx + fw - target_w) 2) (W - target_w)))
    with (Z.quot (2 * fx + fw - target_w) 2) by quot_lia.
  replace (Z.max 0 (Z.min (Z.quot (2 * fy + fh - target_h) 2) (H - target_h)))
    with (Z.quot (2 * fy + fh - target_h) 2) by quot_lia.
  rewrite !Z.min_l by lia.
  split; apply crop_midpoint; lia.
Qed.

Lemma crop_center_follows_subject_witness :
  let subject := (100, 100, 11, 10) in
  let r := plan_crop (Some subject) (1000, 1000) (200, 200) in
  (fst (center r) == fst (center subject) - (1 # 2))%Q /\
  (snd (center r) == snd (center subject) - 0)%Q.
Proof.
  apply (crop_center_follows_subject 100 100 11 10 1000 1000 200 200);
    cbn; unfold Qle; cbn; lia.
Defined.

(** C3 as stated fails: a subject of odd width well inside the image, with
    an even target, gets a crop whose midpoint is not the subject's. *)
Lemma crop_center_not_exact :
  ~ (forall (subject : Rect) (W H target_w target_h : Z),
       target_w <= W -> target_h <= H ->
       (half target_w <= fst (center subject))%Q ->
       (fst (center subject) <= inject_Z W - half target_w)%Q ->
       (half target_h <= snd (center subject))%Q ->
       (snd (center subject) <= inject_Z H - half target_h)%Q ->
       let r := plan_crop (Some subject) (W, H) (target_w, target_h) in
       (fst (center r) == fst (center subject))%Q /\
       (snd (center r) == snd (center subject))%Q).
Proof.
  intros C.
  specialize (C (100, 100, 11, 11) 1000 1000 200 200).
  destruct C as [Cx _]; try lia; try (unfold Qle; cbn; lia).
  revert Cx. cbn. unfold Qeq. cbn. lia.
Qed.

Lemma center_at (f fw W : Z) :
  (inject_Z f + half fw == half W)%Q <-> 2 * f + fw = W.
Proof. unfold Qeq, half. cbn -[Z.mul]. lia. Qed.

Lemma center_floor (W tw : Z) :
  Qfloor (half W - half tw)%Q = (W - tw) / 2.
Proof.
  unfold Qfloor, half. cbn -[Z.mul Z.div].
  replace (W * 1 * 2 + - (tw * 1) * 2) with ((W - tw) * 2) by ring.
  change 4 with (2 * 2).
  rewrite Z.div_mul_cancel_r by lia. reflexivity.
Qed.

(** C6 (P4, no-subject fallback).  Without a subject the planner works from
    the geometric centre (W/2, H/2) of the image: its crop has the target's
    extent and the origin that [calculate_crop_region] gives to any
    rectangle whose midpoint is that centre; when the target fits, this
    origin is the centre minus half the target, floored, and the midpoint
    of the crop is the centre of the image, or half a pixel before it when
    the sizes differ in parity.  On a 1000x1000 image with target 400x300
    the crop is (300, 350, 400, 300). *)
Theorem plan_crop_no_subject_uses_center :
  (forall (W H target_w target_h : Z) (box : Rect),
     (fst (center box) == half W)%Q -> (snd (center box) == half H)%Q ->
     let r := plan_crop None (W, H) (target_w, target_h) in
     let r' := calculate_crop_region box (W, H) (target_w, target_h) in
     rect_x r = rect_x r' /\ rect_y r = rect_y r' /\
     rect_w r = target_w /\ rect_h r = target_h) /\
  (forall (W H target_w target_h : Z),
     target_w <= W -> target_h <= H ->
     let r := plan_crop None (W, H) (target_w, target_h) in
     r = (Qfloor (half W - half target_w)%Q,
          Qfloor (half H - half target_h)%Q, target_w, target_h) /\
     (fst (center r) ==
        half W - (if Z.even (W - target_w) then 0 else 1 # 2))%Q /\
     (snd (center r) ==
        half H - (if Z.even (H - target_h) then 0 else 1 # 2))%Q) /\
  plan_crop None (1000, 1000) (400, 300) = (300, 350, 400, 300).
Proof.
  split; [|split; [|reflexivity]].
  - intros W H tw th [[[fx fy] fw] fh]. unfold center.
    cbn [rect_x rect_y rect_w rect_h fst snd]. intros Hx Hy. cbn zeta.
    apply center_at in Hx, Hy. unfold plan_crop.
    rewrite center_crop_Z, calculate_crop_region_Z.
    cbn [rect_x rect_y rect_w rect_h]. rewrite Hx, Hy. auto.
  - intros W H tw th Hw Hh. cbn zeta. unfold plan_crop.
    rewrite center_crop_Z, !center_floor. unfold center.
    cbn [rect_x rect_y rect_w rect_h fst snd].
    replace (Z.max 0 (Z.min (Z.quot (W - tw) 2) (W - tw)))
      with ((W - tw) / 2) by quot_lia.
    replace (Z.max 0 (Z.min (Z.quot (H - th) 2) (H - th)))
      with ((H - th) / 2) by quot_lia.
    split; [reflexivity|].
    assert (Px : 2 * ((W - tw) / 2)
                 = W - tw - (if Z.even (W - tw) then 0 else 1)).
    { rewrite <- (quot2_parity (W - tw)) by lia. quot_lia. }
    assert (Py : 2 * ((H - th) / 2)
                 = H - th - (if Z.even (H - th) then 0 else 1)).
    { rewrite <- (quot2_parity (H - th)) by lia. quot_lia. }
    split.
    + destruct (Z.even (W - tw)); unfold Qeq, half;
        cbn -[Z.mul Z.div]; lia.
    + destruct (Z.even (H - th)); unfold Qeq, half;
        cbn -[Z.mul Z.div]; lia.
Qed.

Lemma plan_crop_no_subject_uses_center_witness :
  (let r := plan_crop None (801, 600) (512, 512) in
   let r' := calculate_crop_region (400, 290, 1, 20) (801, 600)
               (512, 512) in
   rect_x r = rect_x r' /\ rect_y r = rect_y r' /\
   rect_w r = 512 /\ rect_h r = 512) /\
  (let r := plan_crop None (801, 600) (512, 512) in
   r = (Qfloor (half 801 - half 512)%Q, Qfloor (half 600 - half 512)%Q,
        512, 512) /\
   (fst (center r) == half 801 - (1 # 2))%Q /\
   (snd (center r) == half 600 - 0)%Q).
Proof.
  split.
  - apply (proj1 plan_crop_no_subject_uses_center 801 600 512 512
             (400, 290, 1, 20)); reflexivity.
  - apply (proj1 (proj2 plan_crop_no_subject_uses_center) 801 600 512 512);
      lia.
Defined.

(** C8.  For any focus rectangle of integer coordinates, inside the image
    or not, and positive image and target sizes, [calculate_crop_region]
    returns a rectangle of nonnegative origin and of extent
    [(min(target_w, W), min(target_h, H))] that lies inside the image. *)
Theorem calculate_crop_region_inside
    (focus_box : Rect) (W H target_w target_h : Z) :
  0 < W -> 0 < H -> 0 < target_w -> 0 < target_h ->
  let r := calculate_crop_region focus_box (W, H) (target_w, target_h) in
  0 <= rect_x r /\ 0 <= rect_y r /\
  rect_w r = Z.min target_w W /\ rect_h r = Z.min target_h H /\
  0 < rect_w r /\ 0 < rect_h r /\
  inside r (W, H).
Proof.
  intros HW HH Htw Hth. destruct focus_box as [[[fx fy] fw] fh]. cbn zeta.
  rewrite calculate_crop_region_Z. unfold inside.
  cbn [rect_x rect_y rect_w rect_h fst snd]. lia.
Qed.

Lemma calculate_crop_region_inside_witness :
  let r := calculate_crop_region (-40, 950, 300, 300) (640, 480) (1024, 256) in
  0 <= rect_x r /\ 0 <= rect_y r /\
  rect_w r = Z.min 1024 640 /\ rect_h r = Z.min 256 480 /\
  0 < rect_w r /\ 0 < rect_h r /\
  inside r (640, 480).
Proof.
  apply (calculate_crop_region_inside (-40, 950, 300, 300) 640 480 1024 256);
    lia.
Defined.

(** C10.  When the target fits in the image, the inline fallback of
    [process_image] computes the crop that [calculate_crop_region] gives
    for the full-image rectangle [(0, 0, W, H)]. *)
Theorem center_crop_is_full_image_focus (W H target_w target_h : Z) :
  target_w <= W -> target_h <= H ->
  center_crop (W, H) (target_w, target_h) =
  calculate_crop_region (0, 0, W, H) (W, H) (target_w, target_h).
Proof.
  intros Hw Hh. rewrite center_crop_Z, calculate_crop_region_Z.
  replace (2 * 0 + W - target_w) with (W - target_w) by ring.
  replace (2 * 0 + H - target_h) with (H - target_h) by ring.
  rewrite (Z.min_l target_w W), (Z.min_l target_h H) by lia. reflexivity.
Qed.

Lemma center_crop_is_full_image_focus_witness :
  center_crop (1000, 1000) (400, 300) =
  calculate_crop_region (0, 0, 1000, 1000) (1000, 1000) (400, 300).
Proof. apply (center_crop_is_full_image_focus 1000 1000 400 300); lia. Defined.

(** ** Subject selection *)

(** [max_from] returns an element of largest key among those it saw. *)
Lemma max_from_spec {A} (key : A -> Z) (l : list A) :
  forall best,
    let b := max_from Zgt key best l in
    In b (best :: l) /\ key best <= key b /\
    (forall y, In y l -> key y <= key b).
Proof.
  induction l as [|x rest IH]; intros best; cbn zeta.
  - cbn. split; [left; reflexivity|]. split; [lia|]. intros y [].
  - cbn [max_from].
    destruct (Zgt (key x) (key best)) eqn:E; unfold Zgt in E;
      [apply Z.ltb_lt in E|apply Z.ltb_ge in E].
    + pose proof (IH x) as H; cbn zeta in H.
      destruct H as (Hin & Hle & Hall). split; [|split].
      * destruct Hin as [Hin|Hin]; [right; left|right; right]; assumption.
      * lia.
      * intros y [->|Hy]; [assumption|apply Hall; assumption].
    + pose proof (IH best) as H; cbn zeta in H.
      destruct H as (Hin & Hle & Hall). split; [|split].
      * destruct Hin as [Hin|Hin]; [left|right; right]; assumption.
      * assumption.
      * intros y [->|Hy]; [lia|apply Hall; assumption].
Qed.

Lemma py_max_spec {A} (key : A -> Z) (l : list A) :
  l <> [] ->
  exists b, py_max Zgt key l = Some b /\ In b l /\
            (forall y, In y l -> key y <= key b).
Proof.
  destruct l as [|x rest]; [congruence|]. intros _.
  pose proof (max_from_spec key rest x) as H; cbn zeta in H.
  destruct H as (Hin & Hle & Hall).
  exists (max_from Zgt key x rest). split; [reflexivity|].
  split; [assumption|].
  intros y [->|Hy]; [assumption|apply Hall; assumption].
Qed.

Lemma detect_faces_found (image : Image) (faces : list Rect) :
  detectMultiScale image = Returns faces -> faces <> [] ->
  detect_faces image = ([EvDetectFaces], Returns (py_max Zgt face_area faces)).
Proof.
  intros Hd Hne. unfold detect_faces. rewrite Hd.
  destruct faces as [|f rest]; [congruence|]. reflexivity.
Qed.

Lemma get_focus_box_face (image : Image) (faces : list Rect) (box : Rect) :
  detectMultiScale image = Returns faces ->
  py_max Zgt face_area faces = Some box ->
  get_focus_box image = ([EvDetectFaces], Returns (Some box)).
Proof.
  intros Hd Hmax. unfold get_focus_box.
  rewrite (detect_faces_found image faces Hd).
  - rewrite Hmax. reflexivity.
  - intros ->. discriminate.
Qed.

(** Once the focus box is known, the crop planned from it is sliced out of
    the image, whatever happens afterwards. *)
Lemma process_image_slices
    (w : World) (input_path output_path : path) (image : Image)
    (W H target_w target_h : Z) (pre : list event) (focus_box : option Rect) :
  imread w input_path = Some image -> shape image = (H, W) ->
  target_w <= W -> target_h <= H ->
  get_focus_box image = (pre, Returns focus_box) ->
  In (EvSlice (plan_crop focus_box (W, H) (target_w, target_h)))
     (fst (process_image w input_path output_path (target_w, target_h))).
Proof.
  intros Hread Hshape Hw Hh Hfocus.
  unfold process_image, process_image_body. rewrite Hread.
  cbn [bind emit ret app]. rewrite Hshape.
  replace ((W <? target_w) || (H <? target_h)) with false
    by (symmetry; apply orb_false_iff; split; apply Z.ltb_ge; assumption).
  rewrite Hfocus. cbn [bind].
  unfold slice. rewrite Hshape.
  destruct (plan_crop focus_box (W, H) (target_w, target_h))
    as [[[x y] cw] ch] eqn:Hplan.
  cbn [bind emit ret app].
  match goal with
  | |- context [bind (resize ?i ?d) ?k] => destruct (bind (resize i d) k) as [l r]
  end.
  destruct r; cbn [try_except fst emit app In];
    rewrite ?in_app_iff; cbn [In]; rewrite ?in_app_iff; cbn [In]; auto 10.
Qed.

(** C7 (P6, largest face).  When face detection returns several faces, the
    focus box is one of them and no face has a larger area; it is the box
    the crop is planned from.  With two faces of areas 100 and 400, in
    either order, it is the face of area 400. *)
Theorem largest_face_is_subject :
  (forall (image : Image) (faces : list Rect),
     detectMultiScale image = Returns faces ->
     (1 < List.length faces)%nat ->
     exists box,
       snd (get_focus_box image) = Returns (Some box) /\
       In box faces /\
       (forall f, In f faces -> face_area f <= face_area box) /\
       (forall (w : World) (input_path output_path : path)
               (target_w target_h : Z),
          imread w input_path = Some image ->
          target_w <= snd (shape image) -> target_h <= fst (shape image) ->
          In (EvSlice (calculate_crop_region box
                         (snd (shape image), fst (shape image))
                         (target_w, target_h)))
             (fst (process_image w input_path output_path
                     (target_w, target_h))))) /\
  (forall (image : Image) (small big : Rect),
     face_area small = 100 -> face_area big = 400 ->
     detectMultiScale image = Returns [small; big] \/
     detectMultiScale image = Returns [big; small] ->
     snd (get_focus_box image) = Returns (Some big)).
Proof.
  split.
  - intros image faces Hd Hlen.
    assert (Hne : faces <> []) by (intros ->; cbn in Hlen; lia).
    destruct (py_max_spec face_area faces Hne) as (box & Hmax & Hin & Hall).
    pose proof (get_focus_box_face image faces box Hd Hmax) as Hfocus.
    exists box. split; [rewrite Hfocus; reflexivity|].
    split; [assumption|]. split; [assumption|].
    intros w input_path output_path tw th Hread Hw Hh.
    destruct (shape image) as [H W] eqn:Hshape. cbn [fst snd] in *.
    exact (process_image_slices w input_path output_path image W H tw th
             _ (Some box) Hread Hshape Hw Hh Hfocus).
  - intros image small big Hs Hb [Hd|Hd];
      rewrite (get_focus_box_face image _ big Hd); try reflexivity;
      cbn; unfold Zgt; rewrite Hs, Hb; reflexivity.
Qed.

Lemma largest_face_is_subject_witness :
  (exists box,
     snd (get_focus_box Examples.photo) = Returns (Some box) /\
     In box [(40, 50, 10, 10); (500, 300, 20, 20)] /\
     (forall f, In f [(40, 50, 10, 10); (500, 300, 20, 20)] ->
                face_area f <= face_area box) /\
     (forall (w : World) (input_path output_path : path)
             (target_w target_h : Z),
        imread w input_path = Some Examples.photo ->
        target_w <= 800 -> target_h <= 600 ->
        In (EvSlice (calculate_crop_region box (800, 600)
                       (target_w, target_h)))
           (fst (process_image w input_path output_path
                   (target_w, target_h))))) /\
  snd (get_focus_box Examples.photo) = Returns (Some (500, 300, 20, 20)).
Proof.
  split.
  - apply (proj1 largest_face_is_subject Examples.photo); [reflexivity|].
    cbn. lia.
  - apply (proj2 largest_face_is_subject Examples.photo (40, 50, 10, 10));
      [reflexivity|reflexivity|left; reflexivity].
Defined.

(** ** The per-image pipeline *)

Lemma resize_ok (src : Image) (rows cols dw dh : Z) :
  shape src = (rows, cols) -> 0 < rows -> 0 < cols -> 0 < dw -> 0 < dh ->
  resize src (dw, dh) =
  ([EvResize (rows, cols) (dw, dh)], Returns (with_shape src (dh, dw))).
Proof.
  intros Hs Hr Hc Hw Hh. unfold resize. rewrite Hs.
  replace ((rows <=? 0) || (cols <=? 0) || (dw <=? 0) || (dh <=? 0))
    with false; [reflexivity|].
  symmetry. rewrite !orb_false_iff, !Z.leb_gt. auto.
Qed.

Lemma undersized_true (W H target_w target_h : Z) :
  W < target_w \/ H < target_h ->
  (W <? target_w) || (H <? target_h) = true.
Proof. intros [Hlt|Hlt]; apply orb_true_iff; [left|right]; apply Z.ltb_lt; assumption. Qed.

(** The run on an undersized image, up to the saving of the result. *)
Lemma process_image_body_undersized
    (w : World) (input_path output_path : path) (image : Image)
    (W H target_w target_h : Z) :
  imread w input_path = Some image -> shape image = (H, W) ->
  0 < W -> 0 < H -> 0 < target_w -> 0 < target_h ->
  W < target_w \/ H < target_h ->
  process_image_body w input_path output_path (target_w, target_h) =
  (emit (EvImread input_path) ;;;
   emit (EvWarn input_path (W, H) (target_w, target_h)) ;;;
   emit (EvResize (H, W) (target_w, target_h)) ;;;
   save w output_path (with_shape image (target_h, target_w))).
Proof.
  intros Hread Hshape HW HH Htw Hth Hsmall.
  unfold process_image_body. rewrite Hread. cbn [bind emit ret app].
  rewrite Hshape, (undersized_true _ _ _ _ Hsmall).
  rewrite (resize_ok image H W target_w target_h Hshape HH HW Htw Hth).
  cbn [bind emit ret app].
  destruct (save w output_path (with_shape image (target_h, target_w)))
    as [l r].
  destruct r; reflexivity.
Qed.

(** C4 (P5, undersized source).  On an image smaller than the target in
    width or in height, [process_image] calls no detector and slices
    nothing: it warns, resizes the whole image to the target size and saves
    it, so that the image written has exactly the target size. *)
Theorem undersized_image_is_stretched
    (w : World) (input_path output_path : path) (image : Image)
    (W H target_w target_h : Z) :
  imread w input_path = Some image -> shape image = (H, W) ->
  0 < W -> 0 < H -> 0 < target_w -> 0 < target_h ->
  W < target_w \/ H < target_h ->
  let run := process_image w input_path output_path (target_w, target_h) in
  count_events is_detect (fst run) = 0%nat /\
  count_events is_slice (fst run) = 0%nat /\
  (exists rest,
     fst run = EvImread input_path
               :: EvWarn input_path (W, H) (target_w, target_h)
               :: EvResize (H, W) (target_w, target_h) :: rest) /\
  (makedirs w (dirname output_path) = Returns tt ->
   imwrite w output_path = Returns true ->
   run = ([EvImread input_path;
           EvWarn input_path (W, H) (target_w, target_h);
           EvResize (H, W) (target_w, target_h);
           EvMakedirs (dirname output_path);
           EvImwrite output_path (target_h, target_w)],
          Returns tt)).
Proof.
  intros Hread Hshape HW HH Htw Hth Hsmall. cbn zeta.
  unfold process_image.
  rewrite (process_image_body_undersized w input_path output_path image
             W H target_w target_h Hread Hshape HW HH Htw Hth Hsmall).
  unfold save.
  destruct (makedirs w (dirname output_path)) as [[]|e1];
    destruct (imwrite w output_path) as [[|]|e2]; cbn;
    (split; [reflexivity|]); (split; [reflexivity|]);
    (split; [eexists; reflexivity|]); intros; congruence.
Qed.

Lemma undersized_image_is_stretched_witness :
  let run := process_image Examples.folder
               ["in"; "more"; "thumb.jpg"]%string
               ["out"; "more"; "thumb.jpg"]%string (1024, 1024) in
  run = ([EvImread ["in"; "more"; "thumb.jpg"]%string;
          EvWarn ["in"; "more"; "thumb.jpg"]%string (300, 300) (1024, 1024);
          EvResize (300, 300) (1024, 1024);
          EvMakedirs ["out"; "more"]%string;
          EvImwrite ["out"; "more"; "thumb.jpg"]%string (1024, 1024)],
         Returns tt).
Proof.
  apply (undersized_image_is_stretched Examples.folder
           ["in"; "more"; "thumb.jpg"]%string
           ["out"; "more"; "thumb.jpg"]%string
           Examples.thumbnail 300 300 1024 1024);
    try reflexivity; lia.
Defined.

(** ** Logs of composed computations *)

Lemma count_events_app (f : event -> bool) (l l' : list event) :
  count_events f (l ++ l') = (count_events f l + count_events f l')%nat.
Proof. unfold count_events. rewrite filter_app, length_app. reflexivity. Qed.

Lemma fst_bind {A B} (m : M A) (f : A -> M B) :
  fst (bind m f) =
  fst m ++ match snd m with Returns a => fst (f a) | Raises _ => [] end.
Proof.
  destruct m as [l [a|e]]; cbn.
  - destruct (f a); reflexivity.
  - rewrite app_nil_r. reflexivity.
Qed.

Lemma snd_bind {A B} (m : M A) (f : A -> M B) :
  snd (bind m f) =
  match snd m with Returns a => snd (f a) | Raises e => Raises e end.
Proof.
  destruct m as [l [a|e]]; cbn; [destruct (f a)|]; reflexivity.
Qed.

Lemma quiet_ret {A} (a : A) : quiet (ret a).
Proof. split; reflexivity. Qed.

Lemma quiet_raise {A} (e : exn) : quiet (@raise A e).
Proof. split; reflexivity. Qed.

Lemma quiet_call {A} (o : outcome A) : quiet (call o).
Proof. split; reflexivity. Qed.

Lemma quiet_emit (ev : event) :
  is_write ev = false -> is_error ev = false -> quiet (emit ev).
Proof.
  intros Hw He. unfold quiet, count_events. cbn. rewrite Hw, He.
  split; reflexivity.
Qed.

Lemma quiet_bind {A B} (m : M A) (f : A -> M B) :
  quiet m -> (forall a, quiet (f a)) -> quiet (bind m f).
Proof.
  intros [Hw He] Hf. unfold quiet.
  rewrite fst_bind, !count_events_app, Hw, He.
  destruct (snd m) as [a|e]; [destruct (Hf a) as [-> ->]|]; split; reflexivity.
Qed.

Lemma writes_once_bind {A} (m : M A) (f : A -> M unit) :
  quiet m -> (forall a, writes_once (f a)) -> writes_once (bind m f).
Proof.
  intros [Hw He] Hf. unfold writes_once, returns.
  rewrite fst_bind, snd_bind, !count_events_app, Hw, He.
  destruct (snd m) as [a|e].
  - destruct (Hf a) as [Hfw ->]. split; [exact Hfw|reflexivity].
  - split; [apply Nat.le_refl|reflexivity].
Qed.

Ltac quiet_step :=
  first [ apply quiet_ret | apply quiet_raise | apply quiet_call
        | apply quiet_emit; reflexivity
        | apply quiet_bind; [|intros ?] ].

Lemma quiet_detect_faces (image : Image) : quiet (detect_faces image).
Proof.
  unfold detect_faces. repeat quiet_step.
  match goal with |- context [if ?c then _ else _] => destruct c end;
    quiet_step.
Qed.

Lemma quiet_detect_saliency (image : Image) : quiet (detect_saliency image).
Proof.
  unfold detect_saliency. repeat quiet_step.
  match goal with |- context [if ?c then _ else _] => destruct c end;
    repeat quiet_step.
  match goal with |- context [match ?c with _ => _ end] => destruct c end;
    quiet_step.
Qed.

Lemma quiet_get_focus_box (image : Image) : quiet (get_focus_box image).
Proof.
  unfold get_focus_box. apply quiet_bind; [apply quiet_detect_faces|].
  intros [box|]; [quiet_step|apply quiet_detect_saliency].
Qed.

Lemma quiet_slice (image : Image) (r : Rect) : quiet (slice image r).
Proof.
  unfold slice. destruct r as [[[x y] cw] ch]. destruct (shape image).
  repeat quiet_step.
Qed.

Lemma quiet_resize (src : Image) (dsize : Z * Z) : quiet (resize src dsize).
Proof.
  unfold resize. destruct (shape src), dsize.
  match goal with |- context [if ?c then _ else _] => destruct c end;
    repeat quiet_step.
Qed.

Lemma writes_once_save (w : World) (output_path : path) (resized : Image) :
  writes_once (save w output_path resized).
Proof.
  unfold save.
  destruct (makedirs w (dirname output_path)) as [[]|e1];
    destruct (imwrite w output_path) as [[|]|e2]; split;
    first [reflexivity | cbn; lia].
Qed.

Lemma writes_once_body
    (w : World) (input_path output_path : path) (target_size : Z * Z) :
  writes_once (process_image_body w input_path output_path target_size).
Proof.
  unfold process_image_body.
  apply writes_once_bind; [quiet_step|intros _].
  apply writes_once_bind;
    [destruct (imread w input_path); quiet_step|intros image].
  destruct (shape image) as [img_h img_w], target_size as [target_w target_h].
  destruct ((img_w <? target_w) || (img_h <? target_h)).
  - apply writes_once_bind; [quiet_step|intros _].
    apply writes_once_bind; [apply quiet_resize|intros resized].
    apply writes_once_save.
  - apply writes_once_bind; [apply quiet_get_focus_box|intros focus_box].
    apply writes_once_bind; [apply quiet_slice|intros cropped].
    apply writes_once_bind; [apply quiet_resize|intros resized].
    apply writes_once_save.
Qed.

(** [process_image] never raises: the handler turns any exception of the
    body into one logged error. *)
Lemma process_image_returns
    (w : World) (input_path output_path : path) (target_size : Z * Z) :
  snd (process_image w input_path output_path target_size) = Returns tt.
Proof.
  unfold process_image, try_except.
  destruct (process_image_body w input_path output_path target_size)
    as [l [[]|e]]; reflexivity.
Qed.

(** One image: at most one written image, and only when the body
    returns; one logged error exactly when it raises. *)
Lemma process_image_counts
    (w : World) (input_path output_path : path) (target_size : Z * Z) :
  let body := process_image_body w input_path output_path target_size in
  let log := fst (process_image w input_path output_path target_size) in
  (count_events is_write log <= (if returns body then 1 else 0))%nat /\
  count_events is_error log = (if returns body then 0 else 1)%nat.
Proof.
  cbn zeta. pose proof (writes_once_body w input_path output_path target_size)
    as [Hw He].
  unfold process_image, try_except, returns in *.
  destruct (process_image_body w input_path output_path target_size)
    as [l [[]|e]]; cbn [fst snd emit] in *.
  - split; assumption.
  - rewrite !count_events_app, He. cbn. split; [lia|reflexivity].
Qed.

Lemma process_image_logs_failure
    (w : World) (input_path output_path : path) (target_size : Z * Z)
    (e : exn) :
  snd (process_image_body w input_path output_path target_size) = Raises e ->
  In (EvError input_path e)
     (fst (process_image w input_path output_path target_size)).
Proof.
  unfold process_image, try_except.
  destruct (process_image_body w input_path output_path target_size)
    as [l [[]|e']]; cbn; [discriminate|].
  intros [= ->]. apply in_or_app. right. left. reflexivity.
Qed.

(** ** Files that go through *)

Lemma is_returns_inv {A} (o : outcome A) :
  is_returns o = true -> exists a, o = Returns a.
Proof. destruct o as [a|e]; [eexists; reflexivity|discriminate]. Qed.

Lemma get_focus_box_returns (image : Image) :
  is_returns (detectMultiScale image) = true ->
  is_returns (computeSaliency image) = true ->
  is_returns (findContours image) = true ->
  exists focus_box, snd (get_focus_box image) = Returns focus_box.
Proof.
  intros Hf Hs Hc.
  apply is_returns_inv in Hf, Hs, Hc.
  destruct Hf as [faces Hf], Hs as [success Hs], Hc as [contours Hc].
  unfold get_focus_box, detect_faces, detect_saliency.
  rewrite Hf, Hs, Hc. cbn [bind emit call app].
  destruct (0 <? Z.of_nat (List.length faces)); cbn [bind ret app snd].
  - destruct (py_max Zgt face_area faces); cbn; [eexists; reflexivity|].
    destruct success; cbn; [|eexists; reflexivity].
    destruct (py_max Qgt contourArea contours); cbn; eexists; reflexivity.
  - destruct success; cbn; [|eexists; reflexivity].
    destruct (py_max Qgt contourArea contours); cbn; eexists; reflexivity.
Qed.

(** A slice that stays inside the sequence has the length asked for. *)
Lemma slice_len_inside (start len n : Z) :
  0 <= start -> 0 <= len -> start + len <= n ->
  slice_len start (start + len) n = len.
Proof.
  intros Hs Hl Hn. unfold slice_len.
  destruct (Z.ltb_spec (start + len) 0), (Z.ltb_spec start 0); lia.
Qed.

Lemma save_returns (w : World) (output_path : path) (resized : Image) :
  is_returns (makedirs w (dirname output_path)) = true ->
  is_returns (imwrite w output_path) = true ->
  snd (save w output_path resized) = Returns tt.
Proof.
  intros Hm Hw. unfold save.
  destruct (makedirs w (dirname output_path)) as [[]|]; [|discriminate].
  destruct (imwrite w output_path) as [[|]|]; [reflexivity..|discriminate].
Qed.

Lemma is_written_returns (o : outcome bool) :
  is_written o = true -> o = Returns true.
Proof. destruct o as [[|]|]; cbn; congruence. Qed.

(** A file that decodes to a non-empty image, on which the detectors
    answer and for which [makedirs] and [cv2.imwrite] do not raise, goes
    through the body without an exception, whatever [cv2.imwrite]
    answers. *)
Lemma body_returns_unless_raise
    (w : World) (input_path output_path : path) (image : Image)
    (target_w target_h : Z) :
  0 < target_w -> 0 < target_h ->
  imread w input_path = Some image ->
  0 < fst (shape image) -> 0 < snd (shape image) ->
  is_returns (detectMultiScale image) = true ->
  is_returns (computeSaliency image) = true ->
  is_returns (findContours image) = true ->
  is_returns (makedirs w (dirname output_path)) = true ->
  is_returns (imwrite w output_path) = true ->
  returns (process_image_body w input_path output_path
             (target_w, target_h)) = true.
Proof.
  intros Htw Hth Hread Hrows Hcols Hf Hs Hc Hm Hi.
  destruct (shape image) as [H W] eqn:Hshape. cbn [fst snd] in Hrows, Hcols.
  unfold returns, process_image_body.
  rewrite snd_bind. cbn [emit snd]. rewrite snd_bind, Hread. cbn [ret snd].
  rewrite Hshape.
  destruct ((W <? target_w) || (H <? target_h)) eqn:Hsmall.
  - rewrite snd_bind. cbn [emit snd]. rewrite snd_bind.
    rewrite (resize_ok image H W target_w target_h Hshape) by assumption.
    cbn [snd]. rewrite save_returns by assumption. reflexivity.
  - apply orb_false_iff in Hsmall. rewrite !Z.ltb_ge in Hsmall.
    destruct Hsmall as [Hw Hh].
    destruct (get_focus_box_returns image Hf Hs Hc) as [focus_box Hfocus].
    rewrite snd_bind, Hfocus.
    pose proof (plan_crop_fits focus_box W H target_w target_h
                  (conj Htw Hw) (conj Hth Hh)) as Hfit.
    cbn zeta in Hfit. unfold inside in Hfit.
    destruct (plan_crop focus_box (W, H) (target_w, target_h))
      as [[[x y] cw] ch].
    cbn [rect_x rect_y rect_w rect_h fst snd] in Hfit.
    destruct Hfit as ((Hx0 & Hx1 & Hy0 & Hy1) & -> & ->).
    rewrite snd_bind. unfold slice. rewrite Hshape. cbn [bind emit ret snd].
    rewrite snd_bind.
    rewrite (resize_ok _ target_h target_w target_w target_h); try assumption.
    + cbn [snd]. rewrite save_returns by assumption. reflexivity.
    + cbn [with_shape shape].
      rewrite !slice_len_inside by lia. reflexivity.
Qed.

(** A valid file goes through the body without an exception. *)
Lemma valid_file_returns
    (w : World) (input_dir output_dir input_path : path)
    (target_w target_h : Z) :
  0 < target_w -> 0 < target_h ->
  valid_file w input_dir output_dir input_path = true ->
  returns (process_image_body w input_path
             (output_path_of input_dir output_dir input_path)
             (target_w, target_h)) = true.
Proof.
  intros Htw Hth Hvalid. unfold valid_file in Hvalid.
  destruct (imread w input_path) as [image|] eqn:Hread; [|discriminate].
  rewrite !andb_true_iff, !Z.ltb_lt in Hvalid.
  destruct Hvalid as [[[[[[Hrows Hcols] Hf] Hs] Hc] Hm] Hi].
  apply is_written_returns in Hi.
  apply (body_returns_unless_raise w input_path _ image); try assumption.
  rewrite Hi. reflexivity.
Qed.

(** When [cv2.imwrite] answers [True], the body writes exactly one image
    if it returns. *)
Lemma writes_exactly_once_bind {A} (m : M A) (f : A -> M unit) :
  quiet m -> (forall a, writes_exactly_once (f a)) ->
  writes_exactly_once (bind m f).
Proof.
  intros [Hw He] Hf. unfold writes_exactly_once, returns.
  rewrite fst_bind, snd_bind, !count_events_app, Hw, He.
  destruct (snd m) as [a|e]; [destruct (Hf a) as [-> ->]|]; split; reflexivity.
Qed.

Lemma writes_exactly_once_save
    (w : World) (output_path : path) (resized : Image) :
  imwrite w output_path = Returns true ->
  writes_exactly_once (save w output_path resized).
Proof.
  intros Hi. unfold save. rewrite Hi.
  destruct (makedirs w (dirname output_path)) as [[]|e1]; split; reflexivity.
Qed.

Lemma writes_exactly_once_body
    (w : World) (input_path output_path : path) (target_size : Z * Z) :
  imwrite w output_path = Returns true ->
  writes_exactly_once
    (process_image_body w input_path output_path target_size).
Proof.
  intros Hi. unfold process_image_body.
  apply writes_exactly_once_bind; [quiet_step|intros _].
  apply writes_exactly_once_bind;
    [destruct (imread w input_path); quiet_step|intros image].
  destruct (shape image) as [img_h img_w], target_size as [target_w target_h].
  destruct ((img_w <? target_w) || (img_h <? target_h)).
  - apply writes_exactly_once_bind; [quiet_step|intros _].
    apply writes_exactly_once_bind; [apply quiet_resize|intros resized].
    apply writes_exactly_once_save. assumption.
  - apply writes_exactly_once_bind;
      [apply quiet_get_focus_box|intros focus_box].
    apply writes_exactly_once_bind; [apply quiet_slice|intros cropped].
    apply writes_exactly_once_bind; [apply quiet_resize|intros resized].
    apply writes_exactly_once_save. assumption.
Qed.

(** A valid file yields exactly one written image. *)
Lemma valid_file_writes
    (w : World) (input_dir output_dir input_path : path)
    (target_w target_h : Z) :
  0 < target_w -> 0 < target_h ->
  valid_file w input_dir output_dir input_path = true ->
  count_events is_write
    (fst (process_image w input_path
            (output_path_of input_dir output_dir input_path)
            (target_w, target_h))) = 1%nat.
Proof.
  intros Htw Hth Hvalid.
  pose proof (valid_file_returns w input_dir output_dir input_path
                target_w target_h Htw Hth Hvalid) as Hret.
  assert (Hi : imwrite w (output_path_of input_dir output_dir input_path)
               = Returns true).
  { unfold valid_file in Hvalid.
    destruct (imread w input_path); [|discriminate].
    rewrite !andb_true_iff in Hvalid.
    apply is_written_returns. apply Hvalid. }
  destruct (writes_exactly_once_body w input_path
              (output_path_of input_dir output_dir input_path)
              (target_w, target_h) Hi) as [Hw _].
  rewrite Hret in Hw.
  unfold process_image, try_except, returns in *.
  destruct (process_image_body w input_path
              (output_path_of input_dir output_dir input_path)
              (target_w, target_h)) as [l [[]|e]]; cbn [fst snd] in *;
    [assumption|discriminate].
Qed.

(** An undecodable file makes the body raise, after the read only. *)
Lemma undecodable_raises
    (w : World) (input_path output_path : path) (target_size : Z * Z) :
  undecodable w input_path = true ->
  process_image_body w input_path output_path target_size =
  ([EvImread input_path], Raises (ValueError input_path)).
Proof.
  unfold undecodable, process_image_body.
  destruct (imread w input_path); [discriminate|]. reflexivity.
Qed.

(** ** The batch *)

(** A loop whose body never raises runs to its end, and its log is the
    logs of the iterations, one after the other. *)
Lemma for_each_total {A} (l : list A) (body : A -> M unit) :
  (forall x, snd (body x) = Returns tt) ->
  for_each l body = (flat_map (fun x => fst (body x)) l, Returns tt).
Proof.
  intros Hbody. induction l as [|x rest IH]; [reflexivity|].
  cbn [for_each flat_map]. rewrite IH.
  pose proof (Hbody x) as Hx. destruct (body x) as [lx rx].
  cbn [snd] in Hx. subst rx. reflexivity.
Qed.

Lemma batch_log_counts
    (w : World) (input_dir output_dir : path) (target_size : Z * Z)
    (files : list path) :
  let out := output_path_of input_dir output_dir in
  let body p := process_image_body w p (out p) target_size in
  let log :=
    flat_map (fun p => fst (process_image w p (out p) target_size)) files in
  (count_events is_write log
   <= List.length (filter (fun p => returns (body p)) files))%nat /\
  count_events is_error log =
    List.length (filter (fun p => negb (returns (body p))) files).
Proof.
  cbn zeta. induction files as [|p rest [IHw IHe]];
    [split; [apply Nat.le_refl|reflexivity]|].
  cbn [flat_map filter]. rewrite !count_events_app.
  destruct (process_image_counts w p
              (output_path_of input_dir output_dir p) target_size)
    as [Hw He].
  rewrite He, IHe.
  destruct (returns _); cbn [negb List.length]; split; lia.
Qed.

Lemma batch_lower_bounds
    (w : World) (input_dir output_dir : path) (target_size : Z * Z)
    (files : list path) :
  let out := output_path_of input_dir output_dir in
  let body p := process_image_body w p (out p) target_size in
  let log :=
    flat_map (fun p => fst (process_image w p (out p) target_size)) files in
  0 < fst target_size -> 0 < snd target_size ->
  (List.length (filter (valid_file w input_dir output_dir) files)
   <= count_events is_write log)%nat /\
  (List.length (filter (undecodable w) files)
   <= List.length (filter (fun p => negb (returns (body p))) files))%nat /\
  (List.length (filter (fun p => returns (body p)) files) +
   List.length (filter (fun p => negb (returns (body p))) files)
   = List.length files)%nat.
Proof.
  cbn zeta. destruct target_size as [tw th]. cbn [fst snd]. intros Htw Hth.
  induction files as [|p rest (IHv & IHu & IHt)];
    [repeat split; reflexivity|].
  cbn [filter flat_map]. rewrite count_events_app.
  pose proof (valid_file_writes w input_dir output_dir p tw th Htw Hth)
    as Hv.
  assert (Hu : undecodable w p = true ->
               returns (process_image_body w p
                          (output_path_of input_dir output_dir p) (tw, th))
               = false).
  { intros Hu. rewrite undecodable_raises by assumption. reflexivity. }
  set (r := returns (process_image_body w p
                       (output_path_of input_dir output_dir p) (tw, th))) in *.
  destruct (valid_file w input_dir output_dir p);
    destruct (undecodable w p); destruct r;
    try (specialize (Hv eq_refl));
    try (specialize (Hu eq_refl); discriminate);
    cbn [negb List.length]; repeat split; lia.
Qed.

(** X27 (batch isolation).  Whatever the files are, no exception leaves
    [bulk_process]; its log is the logs of the files collected, in order,
    each processed whatever happened to the others; a file whose processing
    raises gets its error logged, and the errors logged are as many as the
    files whose processing raised; at most one image is written per file
    that went through, and one for every valid file.  With nine valid files
    and an undecodable one, nine images are written and one error is
    logged. *)
Theorem batch_isolation
    (w : World) (input_dir output_dir : path) (target_size : Z * Z)
    (recursive : bool) :
  let files := collect_files w input_dir recursive in
  let out := output_path_of input_dir output_dir in
  let body p := process_image_body w p (out p) target_size in
  let run := bulk_process w input_dir output_dir target_size recursive in
  snd run = Returns tt /\
  fst run =
    flat_map (fun p => fst (process_image w p (out p) target_size)) files /\
  (forall p e, In p files -> snd (body p) = Raises e ->
               In (EvError p e) (fst run)) /\
  (forall p, In p files -> undecodable w p = true ->
             In (EvError p (ValueError p)) (fst run)) /\
  (count_events is_write (fst run)
   <= List.length (filter (fun p => returns (body p)) files))%nat /\
  count_events is_error (fst run) =
    List.length (filter (fun p => negb (returns (body p))) files) /\
  (0 < fst target_size -> 0 < snd target_size ->
   (List.length (filter (valid_file w input_dir output_dir) files)
    <= count_events is_write (fst run))%nat) /\
  (0 < fst target_size -> 0 < snd target_size ->
   List.length files = 10%nat ->
   List.length (filter (valid_file w input_dir output_dir) files) = 9%nat ->
   List.length (filter (undecodable w) files) = 1%nat ->
   count_events is_write (fst run) = 9%nat /\
   count_events is_error (fst run) = 1%nat).
Proof.
  cbn zeta. unfold bulk_process.
  rewrite for_each_total by (intros p; apply process_image_returns).
  cbn [fst snd].
  set (files := collect_files w input_dir recursive).
  pose proof (batch_log_counts w input_dir output_dir target_size files)
    as [Hw He]. cbn zeta in Hw, He.
  assert (Hlogged : forall p e, In p files ->
            snd (process_image_body w p
                   (output_path_of input_dir output_dir p) target_size)
            = Raises e ->
            In (EvError p e)
               (flat_map (fun p => fst (process_image w p
                            (output_path_of input_dir output_dir p)
                            target_size)) files)).
  { intros p e Hin Hraise. apply in_flat_map. exists p.
    split; [assumption|]. apply process_image_logs_failure. assumption. }
  split; [reflexivity|]. split; [reflexivity|]. split; [assumption|].
  split.
  { intros p Hin Hu. apply Hlogged; [assumption|].
    rewrite undecodable_raises by assumption. reflexivity. }
  split; [assumption|]. split; [assumption|]. split.
  - intros Htw Hth.
    apply (batch_lower_bounds w input_dir output_dir target_size files);
      assumption.
  - intros Htw Hth Hlen Hvalid Hbad.
    destruct (batch_lower_bounds w input_dir output_dir target_size files)
      as (Bv & Bu & Bt); try assumption. cbn zeta in Bv, Bu, Bt. lia.
Qed.

Lemma batch_isolation_witness :
  let run := bulk_process Examples.folder ["in"]%string ["out"]%string
               (512, 512) true in
  count_events is_write (fst run) = 9%nat /\
  count_events is_error (fst run) = 1%nat.
Proof.
  apply (batch_isolation Examples.folder ["in"]%string ["out"]%string
           (512, 512) true); reflexivity.
Defined.

(** * Further properties of the code *)

(** ** More on the geometry of [calculate_crop_region] *)

(** X1.  A focus box that lies inside the image and is no larger than the
    target is kept whole by the crop planned from it. *)
Theorem crop_contains_focus_box
    (fx fy fw fh W H target_w target_h : Z) :
  0 <= fx -> 0 <= fw -> fx + fw <= W -> fw <= target_w <= W ->
  0 <= fy -> 0 <= fh -> fy + fh <= H -> fh <= target_h <= H ->
  let r := calculate_crop_region (fx, fy, fw, fh) (W, H)
             (target_w, target_h) in
  rect_x r <= fx /\ fx + fw <= rect_x r + rect_w r /\
  rect_y r <= fy /\ fy + fh <= rect_y r + rect_h r.
Proof.
  intros Hfx Hfw Hxw Htw Hfy Hfh Hyh Hth. cbn zeta.
  rewrite calculate_crop_region_Z. cbn [rect_x rect_y rect_w rect_h].
  repeat split; quot_lia.
Qed.

Lemma crop_contains_focus_box_witness :
  let r := calculate_crop_region (700, 20, 91, 60) (800, 600) (200, 100) in
  rect_x r <= 700 /\ 700 + 91 <= rect_x r + rect_w r /\
  rect_y r <= 20 /\ 20 + 60 <= rect_y r + rect_h r.
Proof.
  apply (crop_contains_focus_box 700 20 91 60 800 600 200 100); lia.
Defined.

Lemma clamp_keeps_center (c2 W tw : Z) :
  0 < tw <= W -> 0 <= c2 <= 2 * W ->
  let x := Z.max 0 (Z.min (Z.quot (c2 - tw) 2) (W - tw)) in
  2 * x <= c2 <= 2 * (x + Z.min tw W).
Proof. intros Hw Hc. cbn zeta. quot_lia. Qed.

(** X2.  Whatever the extent of the focus box, when its midpoint lies in
    the image and the target fits, the midpoint lies in the crop. *)
Theorem crop_contains_focus_center
    (fx fy fw fh W H target_w target_h : Z) :
  let subject := (fx, fy, fw, fh) in
  0 < target_w <= W -> 0 < target_h <= H ->
  (0 <= fst (center subject) <= inject_Z W)%Q ->
  (0 <= snd (center subject) <= inject_Z H)%Q ->
  let r := calculate_crop_region subject (W, H) (target_w, target_h) in
  (inject_Z (rect_x r) <= fst (center subject)
     <= inject_Z (rect_x r + rect_w r))%Q /\
  (inject_Z (rect_y r) <= snd (center subject)
     <= inject_Z (rect_y r + rect_h r))%Q.
Proof.
  cbn zeta. unfold center. cbn [rect_x rect_y rect_w rect_h fst snd].
  intros Hw Hh [Hx0 Hx1] [Hy0 Hy1].
  rewrite calculate_crop_region_Z. cbn [rect_x rect_y rect_w rect_h].
  unfold Qle, half in *. cbn -[Z.mul Z.quot Z.max Z.min] in *.
  assert (Hcx : 0 <= 2 * fx + fw <= 2 * W) by lia.
  assert (Hcy : 0 <= 2 * fy + fh <= 2 * H) by lia.
  pose proof (clamp_keeps_center (2 * fx + fw) W target_w Hw Hcx) as Cx.
  pose proof (clamp_keeps_center (2 * fy + fh) H target_h Hh Hcy) as Cy.
  cbn zeta in Cx, Cy. lia.
Qed.

Lemma crop_contains_focus_center_witness :
  let subject := (-30, 590, 75, 10) in
  let r := calculate_crop_region subject (800, 600) (200, 100) in
  (inject_Z (rect_x r) <= fst (center subject)
     <= inject_Z (rect_x r + rect_w r))%Q /\
  (inject_Z (rect_y r) <= snd (center subject)
     <= inject_Z (rect_y r + rect_h r))%Q.
Proof.
  apply (crop_contains_focus_center (-30) 590 75 10 800 600 200 100);
    try lia; split; unfold Qle; cbn; lia.
Defined.

(** X3.  Moving the focus box to the right or down never moves the crop to
    the left or up. *)
Theorem crop_origin_monotone
    (fx fy fx' fy' fw fh W H target_w target_h : Z) :
  fx <= fx' -> fy <= fy' ->
  let r := calculate_crop_region (fx, fy, fw, fh) (W, H)
             (target_w, target_h) in
  let r' := calculate_crop_region (fx', fy', fw, fh) (W, H)
              (target_w, target_h) in
  rect_x r <= rect_x r' /\ rect_y r <= rect_y r'.
Proof.
  intros Hx Hy. cbn zeta. rewrite !calculate_crop_region_Z.
  cbn [rect_x rect_y]. split; quot_lia.
Qed.

Lemma crop_origin_monotone_witness :
  let r := calculate_crop_region (10, 300, 40, 40) (800, 600) (200, 100) in
  let r' := calculate_crop_region (400, 301, 40, 40) (800, 600) (200, 100) in
  rect_x r <= rect_x r' /\ rect_y r <= rect_y r'.
Proof.
  apply (crop_origin_monotone 10 300 400 301 40 40 800 600 200 100); lia.
Defined.

(** X4.  The fallback crop is centred: the margin it leaves on the right
    (below) is the margin on the left (above), or one pixel more. *)
Theorem center_crop_balanced (W H target_w target_h : Z) :
  0 <= target_w <= W -> 0 <= target_h <= H ->
  let r := center_crop (W, H) (target_w, target_h) in
  let left := rect_x r in
  let right := W - (rect_x r + rect_w r) in
  let top := rect_y r in
  let bottom := H - (rect_y r + rect_h r) in
  0 <= left <= right /\ right <= left + 1 /\
  0 <= top <= bottom /\ bottom <= top + 1.
Proof.
  intros Hw Hh. cbn zeta. rewrite center_crop_Z.
  cbn [rect_x rect_y rect_w rect_h]. repeat split; quot_lia.
Qed.

Lemma center_crop_balanced_witness :
  let r := center_crop (801, 600) (512, 512) in
  0 <= rect_x r <= 801 - (rect_x r + rect_w r) /\
  801 - (rect_x r + rect_w r) <= rect_x r + 1 /\
  0 <= rect_y r <= 600 - (rect_y r + rect_h r) /\
  600 - (rect_y r + rect_h r) <= rect_y r + 1.
Proof. apply (center_crop_balanced 801 600 512 512); lia. Defined.

(** ** More on subject selection *)

Import Logs.

Lemma in_fst_bind {A B} (m : M A) (f : A -> M B) (ev : event) :
  In ev (fst (bind m f)) <->
  In ev (fst m) \/ exists a, snd m = Returns a /\ In ev (fst (f a)).
Proof.
  rewrite fst_bind, in_app_iff. destruct (snd m) as [a|e].
  - split; intros [H|H]; auto.
    + right. exists a. auto.
    + destruct H as (a' & [= <-] & H). auto.
  - split; intros [H|H]; auto.
    + destruct H.
    + destruct H as (a' & [=] & _).
Qed.

(** X5.  The saliency detector runs only when the face detector returned
    and found no face: not when a face was found, not when the face
    detector raised. *)
Theorem saliency_only_without_face (image : Image) :
  In EvDetectSaliency (fst (get_focus_box image)) ->
  detectMultiScale image = Returns [].
Proof.
  unfold get_focus_box, detect_faces.
  destruct (detectMultiScale image) as [[|f rest]|e]; cbn.
  - reflexivity.
  - intros [H|[]]. discriminate.
  - intros [H|[]]. discriminate.
Qed.

Lemma saliency_only_without_face_witness :
  detectMultiScale Examples.thumbnail = Returns [].
Proof.
  apply (saliency_only_without_face Examples.thumbnail).
  cbn. right. left. reflexivity.
Defined.

Lemma Qgt_false (a b : Q) : Qgt a b = false -> (a <= b)%Q.
Proof.
  unfold Qgt. intros H. apply negb_false_iff in H.
  apply Qle_bool_iff. assumption.
Qed.

Lemma Qgt_true (a b : Q) : Qgt a b = true -> (b <= a)%Q.
Proof.
  unfold Qgt. intros H. apply negb_true_iff in H.
  apply Qlt_le_weak. apply Qnot_le_lt. intros Hle.
  apply Qle_bool_iff in Hle. congruence.
Qed.

Lemma max_from_area {A} (key : A -> Q) (l : list A) :
  forall best,
    In (max_from Qgt key best l) (best :: l) /\
    (key best <= key (max_from Qgt key best l))%Q /\
    (forall y, In y l -> (key y <= key (max_from Qgt key best l))%Q).
Proof.
  induction l as [|x rest IH]; intros best.
  - cbn. split; [left; reflexivity|]. split; [apply Qle_refl|]. intros y [].
  - cbn [max_from].
    destruct (Qgt (key x) (key best)) eqn:E.
    + apply Qgt_true in E. destruct (IH x) as (Hin & Hle & Hall).
      split; [|split].
      * destruct Hin as [Hin|Hin]; [right; left|right; right]; assumption.
      * eapply Qle_trans; eassumption.
      * intros y [<-|Hy]; [assumption|apply Hall; assumption].
    + apply Qgt_false in E. destruct (IH best) as (Hin & Hle & Hall).
      split; [|split].
      * destruct Hin as [Hin|Hin]; [left|right; right]; assumption.
      * assumption.
      * intros y [<-|Hy]; [eapply Qle_trans; eassumption|].
        apply Hall; assumption.
Qed.

(** X6.  Without a face, the focus box is the bounding rectangle of a
    contour of the saliency map of largest area. *)
Theorem saliency_fallback_largest_contour
    (image : Image) (contours : list Contour) :
  detectMultiScale image = Returns [] ->
  computeSaliency image = Returns true ->
  findContours image = Returns contours ->
  contours <> [] ->
  exists c,
    In c contours /\
    (forall c', In c' contours -> (contourArea c' <= contourArea c)%Q) /\
    get_focus_box image =
      ([EvDetectFaces; EvDetectSaliency], Returns (Some (boundingRect c))).
Proof.
  intros Hf Hs Hc Hne. destruct contours as [|c0 rest]; [congruence|].
  destruct (max_from_area contourArea rest c0) as (Hin & Hle & Hall).
  exists (max_from Qgt contourArea c0 rest). split; [assumption|]. split.
  - intros c' [<-|Hc']; [assumption|apply Hall; assumption].
  - unfold get_focus_box, detect_faces, detect_saliency.
    rewrite Hf, Hs, Hc. reflexivity.
Qed.

Lemma saliency_fallback_largest_contour_witness :
  let blob := {| contourArea := 7 # 2; boundingRect := (1, 2, 3, 4) |} in
  let spot := {| contourArea := 3; boundingRect := (9, 9, 2, 2) |} in
  let image := {| shape := (100, 100);
                  detectMultiScale := Returns [];
                  computeSaliency := Returns true;
                  findContours := Returns [spot; blob] |} in
  exists c,
    In c [spot; blob] /\
    (forall c', In c' [spot; blob] -> (contourArea c' <= contourArea c)%Q) /\
    get_focus_box image =
      ([EvDetectFaces; EvDetectSaliency], Returns (Some (boundingRect c))).
Proof.
  cbn zeta.
  apply (saliency_fallback_largest_contour
           {| shape := (100, 100);
              detectMultiScale := Returns [];
              computeSaliency := Returns true;
              findContours :=
                Returns [{| contourArea := 3; boundingRect := (9, 9, 2, 2) |};
                         {| contourArea := 7 # 2;
                            boundingRect := (1, 2, 3, 4) |}] |});
    try reflexivity; discriminate.
Defined.

(** X7.  When there is no face and the saliency detector fails or finds
    no contour, a large enough image is cropped around its centre. *)
Theorem no_subject_center_crop
    (w : World) (input_path output_path : path) (image : Image)
    (W H target_w target_h : Z) :
  imread w input_path = Some image -> shape image = (H, W) ->
  target_w <= W -> target_h <= H ->
  detectMultiScale image = Returns [] ->
  computeSaliency image = Returns false \/
  (computeSaliency image = Returns true /\ findContours image = Returns []) ->
  In (EvSlice (center_crop (W, H) (target_w, target_h)))
     (fst (process_image w input_path output_path (target_w, target_h))).
Proof.
  intros Hread Hshape Hw Hh Hf Hs.
  assert (Hfocus : get_focus_box image =
                   ([EvDetectFaces; EvDetectSaliency], Returns None)).
  { unfold get_focus_box, detect_faces, detect_saliency. rewrite Hf.
    destruct Hs as [Hs|[Hs Hc]]; rewrite Hs; [reflexivity|].
    rewrite Hc. reflexivity. }
  exact (process_image_slices w input_path output_path image W H
           target_w target_h _ None Hread Hshape Hw Hh Hfocus).
Qed.

Lemma no_subject_center_crop_witness :
  In (EvSlice (center_crop (300, 300) (200, 100)))
     (fst (process_image Examples.folder ["in"; "more"; "thumb.jpg"]%string
             ["out"; "thumb.jpg"]%string (200, 100))).
Proof.
  apply (no_subject_center_crop Examples.folder
           ["in"; "more"; "thumb.jpg"]%string ["out"; "thumb.jpg"]%string
           Examples.thumbnail 300 300 200 100);
    try reflexivity; try lia.
  left. reflexivity.
Defined.

(** ** More on the per-image pipeline *)

(** X8.  When subject detection raises on a large enough image, the image
    is neither cropped nor written: the error is logged and
    [process_image] returns.  There is no fallback to the centre crop. *)
Theorem detector_failure_is_logged
    (w : World) (input_path output_path : path) (image : Image)
    (W H target_w target_h : Z) (e : exn) :
  imread w input_path = Some image -> shape image = (H, W) ->
  target_w <= W -> target_h <= H ->
  snd (get_focus_box image) = Raises e ->
  process_image w input_path output_path (target_w, target_h) =
  (EvImread input_path :: fst (get_focus_box image)
     ++ [EvError input_path e],
   Returns tt).
Proof.
  intros Hread Hshape Hw Hh Hraise.
  unfold process_image, process_image_body. rewrite Hread.
  cbn [bind emit ret app]. rewrite Hshape.
  replace ((W <? target_w) || (H <? target_h)) with false
    by (symmetry; apply orb_false_iff; split; apply Z.ltb_ge; assumption).
  destruct (get_focus_box image) as [pre [focus|e']]; cbn [snd] in Hraise;
    [discriminate|].
  injection Hraise as ->. reflexivity.
Qed.

Lemma detector_failure_is_logged_witness :
  let image := {| shape := (600, 800);
                  detectMultiScale := Returns [];
                  computeSaliency := Raises CvError;
                  findContours := Returns [] |} in
  let w := {| walk := fun _ => [];
              imread := fun _ => Some image;
              makedirs := fun _ => Returns tt;
              imwrite := fun _ => Returns true |} in
  process_image w ["a.jpg"]%string ["out"; "a.jpg"]%string (512, 512) =
  ([EvImread ["a.jpg"]%string; EvDetectFaces; EvDetectSaliency;
    EvError ["a.jpg"]%string CvError],
   Returns tt).
Proof.
  cbn zeta.
  apply (detector_failure_is_logged _ ["a.jpg"]%string
           ["out"; "a.jpg"]%string
           {| shape := (600, 800);
              detectMultiScale := Returns [];
              computeSaliency := Raises CvError;
              findContours := Returns [] |} 800 600 512 512 CvError);
    try reflexivity; lia.
Defined.

(** X9.  On an image at least as large as the target, with detectors and
    file system answering, the whole run is: read, detect, slice the
    planned crop, resize a crop that already has the target size, create
    the directory, write.  Nothing is stretched and no warning is
    printed. *)
Theorem large_image_run
    (w : World) (input_path output_path : path) (image : Image)
    (W H target_w target_h : Z) (pre : list event) (focus : option Rect) :
  imread w input_path = Some image -> shape image = (H, W) ->
  0 < target_w <= W -> 0 < target_h <= H ->
  get_focus_box image = (pre, Returns focus) ->
  makedirs w (dirname output_path) = Returns tt ->
  imwrite w output_path = Returns true ->
  process_image w input_path output_path (target_w, target_h) =
  (EvImread input_path :: pre ++
     [EvSlice (plan_crop focus (W, H) (target_w, target_h));
      EvResize (target_h, target_w) (target_w, target_h);
      EvMakedirs (dirname output_path);
      EvImwrite output_path (target_h, target_w)],
   Returns tt).
Proof.
  intros Hread Hshape Hw Hh Hfocus Hmk Hwr.
  unfold process_image, process_image_body. rewrite Hread.
  cbn [bind emit ret app]. rewrite Hshape.
  replace ((W <? target_w) || (H <? target_h)) with false
    by (symmetry; apply orb_false_iff; split; apply Z.ltb_ge; lia).
  rewrite Hfocus. cbn [bind].
  pose proof (plan_crop_fits focus W H target_w target_h Hw Hh) as Hfit.
  cbn zeta in Hfit. unfold inside in Hfit.
  destruct (plan_crop focus (W, H) (target_w, target_h)) as [[[x y] cw] ch].
  cbn [rect_x rect_y rect_w rect_h fst snd] in Hfit.
  destruct Hfit as ((Hx0 & Hx1 & Hy0 & Hy1) & -> & ->).
  unfold slice. rewrite Hshape. cbn [bind emit ret app].
  rewrite (resize_ok _ target_h target_w target_w target_h); try lia.
  - unfold save. rewrite Hmk, Hwr. reflexivity.
  - cbn [with_shape shape]. rewrite !slice_len_inside by lia. reflexivity.
Qed.

Lemma large_image_run_witness :
  process_image Examples.folder ["in"; "a.jpg"]%string
    ["out"; "a.jpg"]%string (512, 512) =
  ([EvImread ["in"; "a.jpg"]%string; EvDetectFaces;
    EvSlice (254, 54, 512, 512); EvResize (512, 512) (512, 512);
    EvMakedirs ["out"]%string;
    EvImwrite ["out"; "a.jpg"]%string (512, 512)],
   Returns tt).
Proof.
  apply (large_image_run Examples.folder ["in"; "a.jpg"]%string
           ["out"; "a.jpg"]%string Examples.photo 800 600 512 512
           [EvDetectFaces] (Some (500, 300, 20, 20)));
    try reflexivity; lia.
Defined.

Lemma resize_rejects (src : Image) (dw dh : Z) :
  dw <= 0 \/ dh <= 0 -> resize src (dw, dh) = ([], Raises CvError).
Proof.
  intros Hbad. unfold resize. destruct (shape src) as [rows cols].
  replace ((rows <=? 0) || (cols <=? 0) || (dw <=? 0) || (dh <=? 0))
    with true; [reflexivity|].
  symmetry. rewrite !orb_true_iff, !Z.leb_le. tauto.
Qed.

Lemma body_raises_on_empty_target
    (w : World) (input_path output_path : path) (target_w target_h : Z) :
  target_w <= 0 \/ target_h <= 0 ->
  returns (process_image_body w input_path output_path
             (target_w, target_h)) = false.
Proof.
  intros Hbad. unfold returns, process_image_body.
  rewrite snd_bind. cbn [emit snd]. rewrite snd_bind.
  destruct (imread w input_path) as [image|]; [|reflexivity].
  cbn [ret snd]. destruct (shape image) as [H W] eqn:Hshape.
  destruct ((W <? target_w) || (H <? target_h)).
  - rewrite snd_bind. cbn [emit snd]. rewrite snd_bind.
    rewrite resize_rejects by assumption. reflexivity.
  - rewrite snd_bind. destruct (snd (get_focus_box image)); [|reflexivity].
    rewrite snd_bind. unfold slice.
    destruct (plan_crop a (W, H) (target_w, target_h)) as [[[x y] cw] ch].
    rewrite Hshape. cbn [bind emit ret snd]. rewrite snd_bind.
    rewrite resize_rejects by assumption. reflexivity.
Qed.

(** X10.  With a target of zero or negative width or height nothing is
    ever written: whatever the file, [process_image] logs exactly one
    error.  ([cv2.resize] rejects an empty [dsize].) *)
Theorem empty_target_writes_nothing
    (w : World) (input_path output_path : path) (target_w target_h : Z) :
  target_w <= 0 \/ target_h <= 0 ->
  let log := fst (process_image w input_path output_path
                    (target_w, target_h)) in
  count_events is_write log = 0%nat /\ count_events is_error log = 1%nat.
Proof.
  intros Hbad. cbn zeta.
  destruct (process_image_counts w input_path output_path
              (target_w, target_h)) as [Hw He].
  rewrite (body_raises_on_empty_target w input_path output_path
             target_w target_h Hbad) in Hw, He.
  split; [lia|assumption].
Qed.

Lemma empty_target_writes_nothing_witness :
  let log := fst (process_image Examples.folder ["in"; "a.jpg"]%string
                    ["out"; "a.jpg"]%string (0, 512)) in
  count_events is_write log = 0%nat /\ count_events is_error log = 1%nat.
Proof.
  apply (empty_target_writes_nothing Examples.folder ["in"; "a.jpg"]%string
           ["out"; "a.jpg"]%string 0 512).
  left. lia.
Defined.

(** ** What a run reads and writes *)

Lemma resize_returns_shape (src r : Image) (dw dh : Z) :
  snd (resize src (dw, dh)) = Returns r -> shape r = (dh, dw).
Proof.
  unfold resize. destruct (shape src) as [rows cols].
  destruct ((rows <=? 0) || (cols <=? 0) || (dw <=? 0) || (dh <=? 0)); cbn;
    [discriminate|].
  intros [= <-]. reflexivity.
Qed.

Lemma in_resize (src : Image) (dsize : Z * Z) (ev : event) :
  In ev (fst (resize src dsize)) -> exists s, ev = EvResize s dsize.
Proof.
  unfold resize. destruct (shape src) as [rows cols], dsize as [dw dh].
  destruct ((rows <=? 0) || (cols <=? 0) || (dw <=? 0) || (dh <=? 0)); cbn;
    [intros []|].
  intros [<-|[]]. eexists; reflexivity.
Qed.

(** Case analysis of a membership in the log of a composed computation. *)
Ltac log_inv H :=
  repeat first
    [ contradiction
    | apply in_fst_bind in H; destruct H as [H|(? & ? & H)]
    | progress cbn [fst snd emit ret raise call In] in H
    | destruct H as [H|H]
    | match type of H with
      | context [match ?c with _ => _ end] => destruct c eqn:?
      end ].

(** The log of the body: the read, then events that are not reads and
    among which a write can only be that of the output path, at the target
    size. *)
Lemma body_log
    (w : World) (input_path output_path : path) (target_w target_h : Z) :
  exists tail,
    fst (process_image_body w input_path output_path (target_w, target_h))
    = EvImread input_path :: tail /\
    forall ev, In ev tail ->
      is_read ev = false /\ is_error ev = false /\
      (is_write ev = true ->
       ev = EvImwrite output_path (target_h, target_w)).
Proof.
  unfold process_image_body. rewrite fst_bind. cbn [emit fst snd app].
  eexists. split; [reflexivity|]. intros ev Hin.
  unfold get_focus_box, detect_faces, detect_saliency, slice, save in Hin.
  log_inv Hin.
  all: try (subst ev; repeat split; discriminate).
  all: try (apply in_resize in Hin; destruct Hin as [s ->];
            repeat split; discriminate).
  all: subst ev; repeat split; intros _;
    erewrite resize_returns_shape by eassumption; reflexivity.
Qed.

Lemma process_image_log
    (w : World) (input_path output_path : path) (target_w target_h : Z) :
  exists tail,
    fst (process_image w input_path output_path (target_w, target_h))
    = EvImread input_path :: tail /\
    forall ev, In ev tail ->
      is_read ev = false /\
      (is_write ev = true ->
       ev = EvImwrite output_path (target_h, target_w)).
Proof.
  destruct (body_log w input_path output_path target_w target_h)
    as (tail & Hlog & Htail).
  unfold process_image, try_except.
  destruct (process_image_body w input_path output_path
              (target_w, target_h)) as [l [[]|e]]; cbn [fst] in *; subst l.
  - exists tail. split; [reflexivity|]. intros ev Hin.
    destruct (Htail ev Hin) as (Hr & _ & Hw). split; assumption.
  - exists (tail ++ [EvError input_path e]). split; [reflexivity|].
    intros ev Hin. apply in_app_iff in Hin. destruct Hin as [Hin|[<-|[]]].
    + destruct (Htail ev Hin) as (Hr & _ & Hw). split; assumption.
    + split; [reflexivity|discriminate].
Qed.

(** X11.  Every image a batch writes has exactly the target size,
    (height, width) = (target_h, target_w), and is written at the place of
    one of the collected files under [output_dir]. *)
Theorem batch_writes_target_size
    (w : World) (input_dir output_dir : path) (target_w target_h : Z)
    (recursive : bool) (p : path) (s : Z * Z) :
  In (EvImwrite p s)
     (fst (bulk_process w input_dir output_dir (target_w, target_h)
             recursive)) ->
  s = (target_h, target_w) /\
  exists input_path,
    In input_path (collect_files w input_dir recursive) /\
    p = output_dir ++ relpath input_path input_dir.
Proof.
  unfold bulk_process.
  rewrite for_each_total by (intros q; apply process_image_returns).
  cbn [fst]. intros Hin. apply in_flat_map in Hin.
  destruct Hin as (input_path & Hfile & Hin).
  destruct (process_image_log w input_path
              (output_path_of input_dir output_dir input_path)
              target_w target_h) as (tail & Hlog & Htail).
  rewrite Hlog in Hin. destruct Hin as [Hin|Hin]; [discriminate|].
  destruct (Htail _ Hin) as [_ Hw]. specialize (Hw eq_refl).
  injection Hw as -> ->. split; [reflexivity|].
  exists input_path. split; [assumption|reflexivity].
Qed.

Lemma batch_writes_target_size_witness :
  (600, 512) = (600, 512) /\
  exists input_path,
    In input_path (collect_files Examples.folder ["in"]%string true) /\
    ["out"; "more"; "thumb.jpg"]%string
    = ["out"]%string ++ relpath input_path ["in"]%string.
Proof.
  apply (batch_writes_target_size Examples.folder ["in"]%string
           ["out"]%string 512 600 true).
  vm_compute. repeat (first [left; reflexivity | right]).
Defined.

Lemma filter_no_read (l : list event) :
  (forall ev, In ev l -> is_read ev = false) -> filter is_read l = [].
Proof.
  induction l as [|ev rest IH]; intros Hall; [reflexivity|].
  cbn [filter]. rewrite (Hall ev) by (left; reflexivity).
  apply IH. intros ev' Hin. apply Hall. right. assumption.
Qed.

(** X12.  A batch reads each collected file exactly once, in the order of
    the walk, and nothing else; a collected file is a file of a walked
    directory (the first one only, when not recursive) whose lower-cased
    name ends with a supported extension. *)
Theorem batch_reads_collected_files
    (w : World) (input_dir output_dir : path) (target_size : Z * Z)
    (recursive : bool) :
  filter is_read
    (fst (bulk_process w input_dir output_dir target_size recursive))
  = map EvImread (collect_files w input_dir recursive) /\
  (forall p, In p (collect_files w input_dir recursive) <->
     exists root files name,
       In (root, files) (walked w input_dir recursive) /\
       In name files /\ supported name = true /\ p = root ++ [name]).
Proof.
  split.
  - unfold bulk_process.
    rewrite for_each_total by (intros q; apply process_image_returns).
    cbn [fst]. destruct target_size as [target_w target_h].
    induction (collect_files w input_dir recursive) as [|p rest IH];
      [reflexivity|].
    cbn [flat_map map]. rewrite filter_app, IH.
    destruct (process_image_log w p
                (output_path_of input_dir output_dir p) target_w target_h)
      as (tail & -> & Htail).
    cbn [filter is_read]. rewrite filter_no_read; [reflexivity|].
    intros ev Hin. apply (Htail ev Hin).
  - intros p. unfold collect_files, walked. rewrite in_flat_map. split.
    + intros ([root files] & Hentry & Hin).
      apply in_map_iff in Hin. destruct Hin as (name & <- & Hin).
      apply filter_In in Hin. destruct Hin as [Hin Hsup].
      exists root, files, name. auto.
    + intros (root & files & name & Hentry & Hin & Hsup & ->).
      exists (root, files). split; [assumption|].
      apply in_map_iff. exists name. split; [reflexivity|].
      apply filter_In. auto.
Qed.

(** ** File names *)

Lemma substring_all (s : string) : substring 0 (String.length s) s = s.
Proof. induction s as [|c s IH]; cbn; [reflexivity|]. rewrite IH. reflexivity. Qed.

Lemma substring_suffix (pre suf : string) :
  substring (String.length pre) (String.length suf) (pre ++ suf) = suf.
Proof.
  induction pre as [|c pre IH]; cbn; [apply substring_all|assumption].
Qed.

Lemma length_append (s t : string) :
  String.length (s ++ t) = (String.length s + String.length t)%nat.
Proof. induction s as [|c s IH]; cbn; [reflexivity|]. rewrite IH. reflexivity. Qed.

Lemma substring_split (s : string) (i : nat) :
  (i <= String.length s)%nat ->
  s = (substring 0 i s ++ substring i (String.length s - i) s)%string.
Proof.
  revert i. induction s as [|c s IH]; intros i Hi.
  - destruct i; reflexivity.
  - destruct i as [|i]; cbn.
    + rewrite substring_all. reflexivity.
    + cbn in Hi. rewrite <- IH by lia. reflexivity.
Qed.

(** [endswith] is what its name says. *)
Lemma endswith_iff (s suffix : string) :
  endswith s suffix = true <-> exists stem, s = (stem ++ suffix)%string.
Proof.
  unfold endswith. rewrite andb_true_iff, Nat.leb_le, String.eqb_eq. split.
  - intros [Hle Hsub].
    exists (substring 0 (String.length s - String.length suffix) s).
    pose proof (substring_split s
                  (String.length s - String.length suffix)) as Hs.
    replace (String.length s - (String.length s - String.length suffix))%nat
      with (String.length suffix) in Hs by lia.
    rewrite Hsub in Hs. apply Hs. lia.
  - intros [stem ->]. rewrite length_append. split; [lia|].
    replace (String.length stem + String.length suffix
             - String.length suffix)%nat
      with (String.length stem) by lia.
    apply substring_suffix.
Qed.

Lemma lower_ascii_idem (c : ascii) : lower_ascii (lower_ascii c) = lower_ascii c.
Proof. destruct c as [[] [] [] [] [] [] [] []]; reflexivity. Qed.

Lemma lower_idem (s : string) : lower (lower s) = lower s.
Proof.
  induction s as [|c s IH]; cbn; [reflexivity|].
  rewrite lower_ascii_idem, IH. reflexivity.
Qed.

(** X13.  A file is taken by [bulk_process] exactly when its lower-cased
    name ends with [.jpg], [.jpeg] or [.png]; the test does not depend on
    the case of the name. *)
Theorem supported_iff (file : string) :
  (supported file = true <->
   exists stem ext,
     In ext [".jpg"; ".jpeg"; ".png"]%string /\
     lower file = (stem ++ ext)%string) /\
  supported (lower file) = supported file.
Proof.
  split.
  - unfold supported. rewrite existsb_exists. split.
    + intros (ext & Hin & Hends). apply endswith_iff in Hends.
      destruct Hends as [stem Hstem]. exists stem, ext. auto.
    + intros (stem & ext & Hin & Hstem). exists ext. split; [assumption|].
      apply endswith_iff. exists stem. assumption.
  - unfold supported. rewrite lower_idem. reflexivity.
Qed.

(** * The captioning tool *)

Import Tagger.

(** ** [splitext] *)

Lemma substring_prefix (s t : string) :
  substring 0 (String.length s) (s ++ t) = s.
Proof.
  induction s as [|c s IH]; cbn.
  - destruct t; reflexivity.
  - rewrite IH. reflexivity.
Qed.

Lemma last_dot_append (s e : string) (i : nat) :
  last_dot e = Some i ->
  last_dot (s ++ e) = Some (String.length s + i)%nat.
Proof.
  intros He. induction s as [|c s IH]; cbn; [assumption|].
  rewrite IH. reflexivity.
Qed.

(** A name made of a stem that is not only dots and of a dot followed by
    dot-free characters splits there. *)
Lemma splitext_append (stem e : string) :
  all_dots stem = false -> last_dot e = None ->
  splitext (stem ++ String "." e) = (stem, String "." e).
Proof.
  intros Hstem He. unfold splitext.
  rewrite (last_dot_append stem (String "." e) 0) by (cbn; rewrite He; reflexivity).
  rewrite Nat.add_0_r, substring_prefix, Hstem.
  rewrite length_append.
  replace (String.length stem + String.length (String "." e)
           - String.length stem)%nat
    with (String.length (String "." e)) by lia.
  rewrite substring_suffix. reflexivity.
Qed.

Lemma image_extension_shape (ext : string) :
  existsb (String.eqb ext) image_extensions = true ->
  exists e, ext = String "." e /\ last_dot e = None.
Proof.
  unfold image_extensions. cbn [existsb]. rewrite !orb_true_iff.
  rewrite !String.eqb_eq.
  intros [->|[->|[->|[->|[->|H]]]]]; try discriminate;
    eexists; split; reflexivity.
Qed.

(** ** [format_03d] *)

Lemma list_ascii_append (s t : string) :
  list_ascii_of_string (s ++ t)
  = (list_ascii_of_string s ++ list_ascii_of_string t)%list.
Proof. induction s as [|c s IH]; cbn; [reflexivity|]. rewrite IH. reflexivity. Qed.

Lemma digits_of_uint (d : Decimal.uint) :
  forallb is_digit (list_ascii_of_string (NilEmpty.string_of_uint d)) = true.
Proof. induction d; cbn; try assumption; reflexivity. Qed.

Lemma digits_of_zeros (n : nat) :
  forallb is_digit (list_ascii_of_string (zeros n)) = true.
Proof. induction n; cbn; [reflexivity|assumption]. Qed.

Lemma length_zeros (n : nat) : String.length (zeros n) = n.
Proof. induction n; cbn; [reflexivity|]. rewrite IHn. reflexivity. Qed.

Lemma format_03d_digits (idx : nat) :
  forallb is_digit (list_ascii_of_string (format_03d idx)) = true.
Proof.
  unfold format_03d. rewrite list_ascii_append, forallb_app.
  rewrite digits_of_zeros, digits_of_uint. reflexivity.
Qed.

Lemma format_03d_length (idx : nat) : (3 <= String.length (format_03d idx))%nat.
Proof. unfold format_03d. rewrite length_append, length_zeros. lia. Qed.

Lemma digits_not_dots (s : string) :
  forallb is_digit (list_ascii_of_string s) = true -> s <> EmptyString ->
  all_dots s = false.
Proof.
  destruct s as [|c s]; [congruence|]. cbn. intros H _.
  apply andb_true_iff in H. destruct H as [Hc _].
  destruct (Ascii.eqb_spec c "."); [subst c; discriminate|reflexivity].
Qed.

Lemma format_03d_not_dots (idx : nat) : all_dots (format_03d idx) = false.
Proof.
  apply digits_not_dots; [apply format_03d_digits|].
  pose proof (format_03d_length idx) as H. intros E. rewrite E in H.
  cbn in H. lia.
Qed.

Lemma parse_zeros (n : nat) (d : Decimal.uint) :
  exists d', NilEmpty.uint_of_string (zeros n ++ NilEmpty.string_of_uint d)
             = Some d' /\ Nat.of_uint d' = Nat.of_uint d.
Proof.
  induction n as [|n (d' & Hparse & Hval)]; cbn.
  - exists d. split; [apply NilEmpty.usu|reflexivity].
  - rewrite Hparse. cbn. exists (Decimal.D0 d'). split; [reflexivity|].
    exact Hval.
Qed.

Lemma format_03d_inj (i j : nat) : format_03d i = format_03d j -> i = j.
Proof.
  unfold format_03d. intros E.
  destruct (parse_zeros
              (3 - String.length (NilEmpty.string_of_uint (Nat.to_uint i)))
              (Nat.to_uint i)) as (di & Hi & Vi).
  destruct (parse_zeros
              (3 - String.length (NilEmpty.string_of_uint (Nat.to_uint j)))
              (Nat.to_uint j)) as (dj & Hj & Vj).
  rewrite E, Hj in Hi. injection Hi as <-.
  rewrite Vj in Vi. rewrite !Unsigned.of_to in Vi. congruence.
Qed.

(** Digits followed by an extension: the digits are determined. *)
Lemma digits_then_dot (s1 s2 e1 e2 : string) :
  forallb is_digit (list_ascii_of_string s1) = true ->
  forallb is_digit (list_ascii_of_string s2) = true ->
  (s1 ++ String "." e1 = s2 ++ String "." e2)%string -> s1 = s2.
Proof.
  revert s2. induction s1 as [|c s1 IH]; intros [|c2 s2] H1 H2 E; cbn in *.
  - reflexivity.
  - injection E as <- _. discriminate.
  - injection E as -> _. discriminate.
  - injection E as -> E.
    apply andb_true_iff in H1, H2. f_equal. apply IH; tauto.
Qed.

Lemma three_digits_below_1000 (idx : nat) :
  (idx < 1000)%nat -> three_digits (format_03d idx) = true.
Proof.
  intros Hlt.
  assert (Hall : forallb (fun k => three_digits (format_03d k)) (seq 0 1000)
                 = true) by (vm_compute; reflexivity).
  rewrite forallb_forall in Hall. apply Hall. apply in_seq. lia.
Qed.

(** Digits of other scripts count too: a file named with the three
    Arabic-Indic digits one, two, three is taken as numbered. *)
Lemma three_digits_other_scripts :
  let name := string_of_list_ascii
                (map ascii_of_nat [217; 161; 217; 162; 217; 163]%nat) in
  three_digits name = true /\ wanted ((name ++ ".jpg")%string, false) = false.
Proof. split; reflexivity. Qed.

(** ** Sorting file names *)

Lemma ascii_compare_lt_trans (a b c : ascii) :
  Ascii.compare a b = Lt -> Ascii.compare b c = Lt -> Ascii.compare a c = Lt.
Proof.
  unfold Ascii.compare. rewrite !N.compare_lt_iff. apply N.lt_trans.
Qed.

Lemma string_leb_trans (a b c : string) :
  String.leb a b = true -> String.leb b c = true -> String.leb a c = true.
Proof.
  unfold String.leb. revert b c.
  induction a as [|x a IH]; intros [|y b] [|z c]; cbn; try congruence.
  destruct (Ascii.compare x y) eqn:Exy; try congruence;
    destruct (Ascii.compare y z) eqn:Eyz; try congruence.
  - apply Ascii.compare_eq_iff in Exy, Eyz. subst y z.
    replace (Ascii.compare x x) with Eq
      by (symmetry; unfold Ascii.compare; apply N.compare_refl).
    apply IH.
  - apply Ascii.compare_eq_iff in Exy. subst y. rewrite Eyz. reflexivity.
  - apply Ascii.compare_eq_iff in Eyz. subst z. rewrite Exy. reflexivity.
  - rewrite (ascii_compare_lt_trans x y z Exy Eyz). reflexivity.
Qed.

Lemma insert_perm (x : string) (l : list string) :
  Permutation (insert x l) (x :: l).
Proof.
  induction l as [|y rest IH]; cbn; [apply Permutation_refl|].
  destruct (String.leb x y); [apply Permutation_refl|].
  eapply perm_trans; [apply perm_skip; exact IH|apply perm_swap].
Qed.

Lemma sort_perm (l : list string) : Permutation (sort l) l.
Proof.
  induction l as [|x rest IH]; cbn; [apply perm_nil|].
  eapply perm_trans; [apply insert_perm|apply perm_skip; exact IH].
Qed.

Lemma insert_sorted (x : string) (l : list string) :
  StronglySorted (fun a b => String.leb a b = true) l ->
  StronglySorted (fun a b => String.leb a b = true) (insert x l).
Proof.
  induction l as [|y rest IH]; intros Hs; cbn.
  - constructor; constructor.
  - apply StronglySorted_inv in Hs. destruct Hs as [Hrest Hy].
    destruct (String.leb x y) eqn:E.
    + constructor; [constructor; assumption|].
      constructor; [assumption|].
      eapply Forall_impl; [|exact Hy].
      intros z Hz. cbv beta in Hz. eapply string_leb_trans; eassumption.
    + constructor; [apply IH; assumption|].
      apply Forall_forall. intros z Hz.
      apply (Permutation_in _ (insert_perm x rest)) in Hz.
      destruct Hz as [<-|Hz].
      * destruct (String.leb_total x y) as [H|H]; congruence.
      * rewrite Forall_forall in Hy. apply Hy. assumption.
Qed.

Lemma sort_sorted (l : list string) :
  StronglySorted (fun a b => String.leb a b = true) (sort l).
Proof.
  induction l as [|x rest IH]; cbn; [constructor|].
  apply insert_sorted. assumption.
Qed.

(** Two sorted lists with the same elements are the same list. *)
Lemma sorted_unique (l1 l2 : list string) :
  StronglySorted (fun a b => String.leb a b = true) l1 ->
  StronglySorted (fun a b => String.leb a b = true) l2 ->
  Permutation l1 l2 -> l1 = l2.
Proof.
  revert l2. induction l1 as [|a r1 IH]; intros l2 H1 H2 Hp.
  - apply Permutation_nil in Hp. congruence.
  - destruct l2 as [|b r2];
      [apply Permutation_sym, Permutation_nil in Hp; discriminate|].
    apply StronglySorted_inv in H1, H2.
    destruct H1 as [Hr1 Ha], H2 as [Hr2 Hb].
    rewrite Forall_forall in Ha, Hb.
    assert (Hab : a = b).
    { assert (In b (a :: r1))
        by (eapply Permutation_in;
            [apply Permutation_sym; exact Hp|left; reflexivity]).
      assert (In a (b :: r2))
        by (eapply Permutation_in; [exact Hp|left; reflexivity]).
      destruct H as [->|Hin1]; [reflexivity|].
      destruct H0 as [->|Hin2]; [reflexivity|].
      apply String.leb_antisym; [apply Ha|apply Hb]; assumption. }
    subst b. f_equal. apply IH; try assumption.
    eapply Permutation_cons_inv. exact Hp.
Qed.

Lemma sort_unique (l l' : list string) :
  Permutation l l' -> sort l = sort l'.
Proof.
  intros Hp. apply sorted_unique; try apply sort_sorted.
  eapply perm_trans; [apply sort_perm|].
  eapply perm_trans; [exact Hp|apply Permutation_sym, sort_perm].
Qed.

Lemma filter_perm {A} (f : A -> bool) (l l' : list A) :
  Permutation l l' -> Permutation (filter f l) (filter f l').
Proof.
  induction 1 as [|x l l' _ IH|x y l|l l' l'' _ IH1 _ IH2]; cbn.
  - apply perm_nil.
  - destruct (f x); [apply perm_skip|]; assumption.
  - destruct (f x), (f y); try apply Permutation_refl. apply perm_swap.
  - eapply perm_trans; eassumption.
Qed.

(** ** [rename_images] *)

Lemma wanted_inv (f : string) (isdir : bool) :
  wanted (f, isdir) = true ->
  isdir = false /\
  existsb (String.eqb (lower (snd (splitext f)))) image_extensions = true /\
  three_digits (fst (splitext f)) = false.
Proof.
  unfold wanted. destruct isdir; [discriminate|].
  destruct (splitext f) as [name ext]. cbn [fst snd].
  destruct (existsb (String.eqb (lower ext)) image_extensions);
    [|discriminate].
  destruct (three_digits name); [discriminate|]. auto.
Qed.

Lemma to_rename_in (files : Listing) (f : string) :
  In f (to_rename files) <-> In (f, false) files /\ wanted (f, false) = true.
Proof.
  unfold to_rename. split.
  - intros Hin. apply (Permutation_in _ (sort_perm _)) in Hin.
    apply in_map_iff in Hin. destruct Hin as ([g d] & <- & Hin).
    apply filter_In in Hin. destruct Hin as [Hin Hw]. cbn [fst].
    destruct (wanted_inv g d Hw) as [-> _]. auto.
  - intros [Hin Hw].
    apply (Permutation_in _ (Permutation_sym (sort_perm _))).
    apply in_map_iff. exists (f, false). split; [reflexivity|].
    apply filter_In. auto.
Qed.

Lemma enumerate_in {A} (start idx : nat) (l : list A) (x : A) :
  In (idx, x) (enumerate start l) ->
  (start <= idx < start + List.length l)%nat /\ In x l.
Proof.
  unfold enumerate. intros Hin. split.
  - apply in_combine_l in Hin. apply in_seq in Hin. exact Hin.
  - apply in_combine_r in Hin. exact Hin.
Qed.

(** A name produced by the numbering is never one to rename. *)
Lemma target_not_wanted (idx : nat) (f : string) (isdir : bool) :
  (idx < 1000)%nat ->
  existsb (String.eqb (lower (snd (splitext f)))) image_extensions = true ->
  wanted (new_name idx f, isdir) = false /\
  three_digits (fst (splitext (new_name idx f))) = true.
Proof.
  intros Hlt Hext. apply image_extension_shape in Hext.
  destruct Hext as (e & He & Hdot). unfold new_name, wanted. rewrite He.
  rewrite (splitext_append (format_03d idx) e (format_03d_not_dots idx) Hdot).
  cbv beta iota. cbn [fst]. rewrite (three_digits_below_1000 idx Hlt).
  split; [|reflexivity]. destruct isdir; [reflexivity|].
  destruct (negb _); reflexivity.
Qed.

Lemma new_name_inj (i j : nat) (f g : string) :
  existsb (String.eqb (lower (snd (splitext f)))) image_extensions = true ->
  existsb (String.eqb (lower (snd (splitext g)))) image_extensions = true ->
  new_name i f = new_name j g -> i = j.
Proof.
  intros Hf Hg. apply image_extension_shape in Hf, Hg.
  destruct Hf as (e & He & _), Hg as (e' & He' & _).
  unfold new_name. rewrite He, He'. intros E.
  apply format_03d_inj.
  eapply digits_then_dot; [apply format_03d_digits..|exact E].
Qed.

(** X14.  [rename_images] only renames plain files of the folder whose
    extension, in lower case, is an image extension and whose stem is not
    three digits: directories, other files and numbered files are left
    alone.  The new name is a number, on three digits at least, followed by
    the old extension in lower case. *)
Theorem rename_sources (files : Listing) (old new : string) :
  In (old, new) (renames files) ->
  In (old, false) files /\
  In (lower (snd (splitext old))) image_extensions /\
  three_digits (fst (splitext old)) = false /\
  exists idx,
    (1 <= idx <= List.length (to_rename files))%nat /\
    new = (format_03d idx ++ lower (snd (splitext old)))%string.
Proof.
  unfold renames. intros Hin. apply filter_In in Hin.
  destruct Hin as [Hin _]. apply in_map_iff in Hin.
  destruct Hin as ([idx f] & [= <- <-] & Hin).
  apply enumerate_in in Hin. destruct Hin as [Hidx Hin].
  apply to_rename_in in Hin. destruct Hin as [Hfile Hw].
  destruct (wanted_inv f false Hw) as (_ & Hext & Hnum).
  split; [assumption|]. split.
  - apply existsb_exists in Hext. destruct Hext as (x & Hx & E).
    apply String.eqb_eq in E. subst x. assumption.
  - split; [assumption|]. exists idx. split; [lia|reflexivity].
Qed.

Lemma rename_sources_witness :
  In ("b.JPG", false)%string
     [("b.JPG", false); ("007.png", false); ("a.png", false)]%string /\
  In (lower (snd (splitext "b.JPG"))) image_extensions /\
  three_digits (fst (splitext "b.JPG")) = false /\
  exists idx,
    (1 <= idx <= List.length
                   (to_rename
                      [("b.JPG", false); ("007.png", false);
                       ("a.png", false)]%string))%nat /\
    "002.jpg"%string
    = (format_03d idx ++ lower (snd (splitext "b.JPG")))%string.
Proof.
  apply (rename_sources
           [("b.JPG", false); ("007.png", false); ("a.png", false)]%string
           "b.JPG" "002.jpg").
  vm_compute. right. left. reflexivity.
Defined.

Lemma filter_all {A} (f : A -> bool) (l : list A) :
  (forall x, In x l -> f x = true) -> filter f l = l.
Proof.
  intros Hall. apply forallb_filter_id. apply forallb_forall. assumption.
Qed.

Lemma enumerate_sources {A B} (g : nat -> A -> B) (l : list A) :
  forall start,
    map fst (map (fun '(idx, x) => (x, g idx x)) (enumerate start l)) = l.
Proof.
  unfold enumerate. induction l as [|x rest IH]; intros start;
    [reflexivity|].
  cbn [List.length seq combine map fst]. f_equal. apply IH.
Qed.

Lemma renames_unfiltered (files : Listing) :
  (List.length (to_rename files) < 1000)%nat ->
  renames files =
    map (fun '(idx, filename) => (filename, new_name idx filename))
        (enumerate 1 (to_rename files)).
Proof.
  intros Hn. unfold renames. apply filter_all. intros [old new] Hin.
  apply in_map_iff in Hin. destruct Hin as ([idx f] & [= <- <-] & Hin).
  apply enumerate_in in Hin. destruct Hin as [Hidx Hin].
  apply to_rename_in in Hin. destruct Hin as [_ Hw].
  apply negb_true_iff, String.eqb_neq. intros Heq.
  destruct (wanted_inv f false Hw) as (_ & Hext & _).
  destruct (target_not_wanted idx f false) as [Hnot _];
    [lia|assumption|]. rewrite <- Heq in Hnot. congruence.
Qed.

Lemma renames_sources_eq (files : Listing) :
  (List.length (to_rename files) < 1000)%nat ->
  map fst (renames files) = to_rename files.
Proof.
  intros Hn. rewrite (renames_unfiltered files Hn). apply enumerate_sources.
Qed.

(** X15.  With fewer than a thousand files to rename, every one of them is
    renamed (the test [old_path != new_path] never skips one): the files
    renamed are the files to rename, in sorted order, and the k-th gets the
    number k. *)
Theorem renames_number_every_file (files : Listing) :
  (List.length (to_rename files) < 1000)%nat ->
  renames files =
    map (fun '(idx, filename) => (filename, new_name idx filename))
        (enumerate 1 (to_rename files)) /\
  map fst (renames files) = to_rename files /\
  StronglySorted (fun a b => String.leb a b = true) (map fst (renames files)).
Proof.
  intros Hn. split; [apply renames_unfiltered; assumption|].
  split; [apply renames_sources_eq; assumption|].
  rewrite (renames_sources_eq files Hn). apply sort_sorted.
Qed.

Lemma renames_number_every_file_witness :
  renames [("b.JPG", false); ("007.png", false); ("a.png", false)]%string
  = [("a.png", "001.png"); ("b.JPG", "002.jpg")]%string.
Proof.
  pose proof (renames_number_every_file
                [("b.JPG", false); ("007.png", false);
                 ("a.png", false)]%string) as H.
  destruct H as [H _]; [vm_compute; lia|]. rewrite H. reflexivity.
Defined.

Lemma to_rename_ext (files : Listing) (f : string) :
  In f (to_rename files) ->
  existsb (String.eqb (lower (snd (splitext f)))) image_extensions = true.
Proof.
  intros Hin. apply to_rename_in in Hin. destruct Hin as [_ Hw].
  apply (wanted_inv f false Hw).
Qed.

Lemma numbered_targets_NoDup (l : list string) :
  (forall f, In f l ->
     existsb (String.eqb (lower (snd (splitext f)))) image_extensions
     = true) ->
  forall start,
    NoDup (map snd (map (fun '(idx, filename) =>
                           (filename, new_name idx filename))
                        (enumerate start l))).
Proof.
  unfold enumerate. induction l as [|f rest IH]; intros Hext start;
    [constructor|].
  cbn [List.length seq combine map snd]. constructor.
  - intros Hin. apply in_map_iff in Hin.
    destruct Hin as ([old new] & Hnew & Hin). cbn [snd] in Hnew. subst new.
    apply in_map_iff in Hin. destruct Hin as ([j g] & [= <- Hnew] & Hin).
    pose proof (in_combine_l _ _ _ _ Hin) as Hj. apply in_seq in Hj.
    pose proof (in_combine_r _ _ _ _ Hin) as Hg.
    assert (Heq : j = start).
    { apply (new_name_inj j start g f); [| |exact Hnew].
      - apply Hext. right. assumption.
      - apply Hext. left. reflexivity. }
    lia.
  - apply IH. intros g Hg. apply Hext. right. assumption.
Qed.

Lemma NoDup_map_filter {A B} (g : A -> B) (f : A -> bool) (l : list A) :
  NoDup (map g l) -> NoDup (map g (filter f l)).
Proof.
  induction l as [|x rest IH]; cbn; intros Hnd; [constructor|].
  inversion Hnd as [|y ys Hnotin Hrest]; subst.
  destruct (f x); cbn; [|apply IH; assumption].
  constructor; [|apply IH; assumption].
  intros Hin. apply Hnotin. apply in_map_iff in Hin.
  destruct Hin as (z & Hz & Hin). apply filter_In in Hin.
  apply in_map_iff. exists z. tauto.
Qed.

Lemma renames_targets_NoDup (files : Listing) :
  NoDup (map snd (renames files)).
Proof.
  unfold renames. apply NoDup_map_filter. apply numbered_targets_NoDup.
  intros f Hin. apply (to_rename_ext files f Hin).
Qed.

Lemma renames_target_numbered (files : Listing) (old new : string) :
  (List.length (to_rename files) < 1000)%nat ->
  In (old, new) (renames files) ->
  three_digits (fst (splitext new)) = true /\
  forall isdir, wanted (new, isdir) = false.
Proof.
  intros Hn Hin. unfold renames in Hin. apply filter_In in Hin.
  destruct Hin as [Hin _]. apply in_map_iff in Hin.
  destruct Hin as ([idx f] & [= <- <-] & Hin).
  apply enumerate_in in Hin. destruct Hin as [Hidx Hin].
  pose proof (to_rename_ext files f Hin) as Hext.
  assert (Hlt : (idx < 1000)%nat) by lia.
  split; [|intros isdir].
  - apply (target_not_wanted idx f false Hlt Hext).
  - apply (target_not_wanted idx f isdir Hlt Hext).
Qed.

(** X16.  No two renames of a run have the same target; and with fewer
    than a thousand files to rename, no target is the name of a file still
    to be renamed. *)
Theorem rename_targets_distinct (files : Listing) :
  NoDup (map snd (renames files)) /\
  ((List.length (to_rename files) < 1000)%nat ->
   forall old new, In (old, new) (renames files) ->
                   ~ In new (to_rename files)).
Proof.
  split; [apply renames_targets_NoDup|].
  intros Hn old new Hin Hsrc.
  destruct (renames_target_numbered files old new Hn Hin) as [_ Hnot].
  apply to_rename_in in Hsrc. destruct Hsrc as [_ Hw].
  rewrite Hnot in Hw. discriminate.
Qed.

Lemma rename_targets_distinct_witness :
  ~ In "001.png"%string
       (to_rename
          [("b.JPG", false); ("007.png", false); ("a.png", false)]%string).
Proof.
  apply (proj2 (rename_targets_distinct
                  [("b.JPG", false); ("007.png", false);
                   ("a.png", false)]%string)) with (old := "a.png"%string).
  - vm_compute. lia.
  - vm_compute. left. reflexivity.
Defined.

(** X17.  The renames do not depend on the order in which [os.listdir]
    returns the entries of the folder. *)
Theorem renames_order_independent (files files' : Listing) :
  Permutation files files' -> renames files = renames files'.
Proof.
  intros Hp. unfold renames, to_rename.
  rewrite (sort_unique (map fst (filter wanted files))
             (map fst (filter wanted files'))); [reflexivity|].
  apply Permutation_map. apply filter_perm. assumption.
Qed.

Lemma renames_order_independent_witness :
  renames [("b.JPG", false); ("007.png", false); ("a.png", false)]%string
  = renames [("a.png", false); ("b.JPG", false); ("007.png", false)]%string.
Proof.
  apply renames_order_independent.
  apply Permutation_sym.
  apply (Permutation_cons_append
           [("b.JPG", false); ("007.png", false)]%string
           ("a.png", false)%string).
Defined.

Lemma exists_name_false (f : string) (files : Listing) :
  exists_name f files = false <-> ~ In f (map fst files).
Proof.
  unfold exists_name. split.
  - intros Hex Hin. apply in_map_iff in Hin. destruct Hin as (e & <- & Hin).
    assert (existsb (fun entry => (fst entry =? fst e)%string) files = true).
    { apply existsb_exists. exists e. split; [assumption|].
      apply String.eqb_refl. }
    congruence.
  - intros Hnot.
    destruct (existsb (fun entry => (fst entry =? f)%string) files) eqn:E;
      [|reflexivity].
    apply existsb_exists in E. destruct E as (e & Hin & Heq).
    apply String.eqb_eq in Heq. exfalso. apply Hnot. subst f.
    apply in_map. assumption.
Qed.

Lemma os_rename_in (old new : string) (files : Listing) (e : string * bool) :
  In e (os_rename old new files) ->
  (fst e = new) \/ (In e files /\ fst e <> old).
Proof.
  unfold os_rename. intros Hin. apply in_map_iff in Hin.
  destruct Hin as (e0 & <- & Hin).
  destruct (String.eqb_spec (fst e0) old); [left; reflexivity|right; auto].
Qed.

Lemma rename_names_NoDup (old new : string) (l : list string) :
  NoDup l -> ~ In new l ->
  NoDup (map (fun n => if (n =? old)%string then new else n) l).
Proof.
  induction l as [|x rest IH]; cbn; intros Hnd Hnew; [constructor|].
  inversion Hnd as [|y ys Hnotin Hrest]; subst.
  constructor; [|apply IH; tauto].
  intros Hin. apply in_map_iff in Hin. destruct Hin as (y & Heq & Hin).
  destruct (String.eqb_spec x old) as [Ex|Ex],
           (String.eqb_spec y old) as [Ey|Ey]; subst; tauto.
Qed.

Lemma os_rename_names (old new : string) (files : Listing) :
  map fst (os_rename old new files)
  = map (fun n => if (n =? old)%string then new else n) (map fst files).
Proof.
  unfold os_rename. rewrite !map_map. apply map_ext. intros e.
  destruct (fst e =? old)%string; reflexivity.
Qed.

Lemma os_rename_length (old new : string) (files : Listing) :
  List.length (os_rename old new files) = List.length files.
Proof. unfold os_rename. apply length_map. Qed.

(** A run whose targets are distinct and free goes to its end, and leaves
    each entry either untouched or under a target name. *)
Lemma run_renames_free (ops : list (string * string)) :
  forall files : Listing,
    NoDup (map snd ops) ->
    (forall new, In new (map snd ops) -> ~ In new (map fst files)) ->
    NoDup (map fst files) ->
    exists after,
      run_renames ops files = Completed after /\
      List.length after = List.length files /\
      NoDup (map fst after) /\
      forall e, In e after ->
        (In e files /\ ~ In (fst e) (map fst ops)) \/
        In (fst e) (map snd ops).
Proof.
  induction ops as [|[old new] rest IH]; intros files Hnd Hfree Hnames.
  - exists files. cbn. repeat split; auto.
  - cbn [run_renames map fst snd] in *.
    inversion Hnd as [|x xs Hnew Hrest]; subst.
    assert (Hfresh : ~ In new (map fst files))
      by (apply Hfree; left; reflexivity).
    rewrite (proj2 (exists_name_false new files) Hfresh).
    destruct (IH (os_rename old new files)) as (after & Hrun & Hlen & Hnd' & Hall).
    + assumption.
    + intros new' Hin' Hin. apply in_map_iff in Hin.
      destruct Hin as (e & Heq & Hin). apply os_rename_in in Hin.
      destruct Hin as [Hin|[Hin _]].
      * apply Hnew. congruence.
      * apply (Hfree new'); [right; assumption|].
        rewrite <- Heq. apply in_map. assumption.
    + rewrite os_rename_names. apply rename_names_NoDup; assumption.
    + exists after. split; [assumption|].
      split; [rewrite Hlen; apply os_rename_length|].
      split; [assumption|].
      intros e Hin. destruct (Hall e Hin) as [[Hin' Hnot]|Htarget].
      * apply os_rename_in in Hin'. destruct Hin' as [Heq|[Hin' Hne]].
        -- right. left. symmetry. assumption.
        -- left. split; [assumption|]. intros [Heq|Hsrc]; auto.
      * right. right. assumption.
Qed.

Lemma filter_none {A} (f : A -> bool) (l : list A) :
  (forall x, In x l -> f x = false) -> filter f l = [].
Proof.
  induction l as [|x rest IH]; intros Hall; [reflexivity|].
  cbn [filter]. rewrite (Hall x) by (left; reflexivity).
  apply IH. intros y Hy. apply Hall. right. assumption.
Qed.

(** X18.  On the listing of a folder (distinct names) where no name has a
    three-digit stem yet, with fewer than a thousand files to rename,
    [rename_images] meets no existing name and completes; the folder keeps
    its number of entries, names stay distinct, nothing is left to rename,
    and a second run renames nothing. *)
Theorem rename_images_fresh (files : Listing) :
  NoDup (map fst files) ->
  (List.length (to_rename files) < 1000)%nat ->
  (forall entry, In entry files ->
     three_digits (fst (splitext (fst entry))) = false) ->
  exists after,
    rename_images files = Completed after /\
    List.length after = List.length files /\
    NoDup (map fst after) /\
    (forall entry, In entry after -> wanted entry = false) /\
    rename_images after = Completed after.
Proof.
  intros Hnames Hn Hfresh.
  destruct (run_renames_free (renames files) files) as
    (after & Hrun & Hlen & Hnd & Hall).
  - apply renames_targets_NoDup.
  - intros new Hin Hname. apply in_map_iff in Hin.
    destruct Hin as ([old new'] & Heq & Hin). cbn [snd] in Heq. subst new'.
    destruct (renames_target_numbered files old new Hn Hin) as [Hnum _].
    apply in_map_iff in Hname. destruct Hname as (entry & Heq & Hentry).
    specialize (Hfresh entry Hentry). rewrite Heq in Hfresh. congruence.
  - assumption.
  - assert (Hdone : forall entry, In entry after -> wanted entry = false).
    { intros [f d] Hin. destruct (Hall _ Hin) as [[Hfile Hnot]|Htarget].
      - cbn [fst] in Hnot. rewrite (renames_sources_eq files Hn) in Hnot.
        destruct (wanted (f, d)) eqn:Hw; [|reflexivity].
        exfalso. apply Hnot. apply to_rename_in.
        destruct (wanted_inv f d Hw) as [-> _]. auto.
      - cbn [fst] in Htarget. apply in_map_iff in Htarget.
        destruct Htarget as ([old new] & Heq & Hop). cbn [snd] in Heq.
        subst new.
        apply (renames_target_numbered files old f Hn Hop). }
    exists after. split; [exact Hrun|]. split; [assumption|].
    split; [assumption|]. split; [assumption|].
    unfold rename_images, renames, to_rename.
    rewrite (filter_none wanted after Hdone). reflexivity.
Qed.

Lemma rename_images_fresh_witness :
  let files := [("b.JPG", false); ("a.png", false); ("dir.jpg", true);
                ("notes.txt", false)]%string in
  exists after,
    rename_images files = Completed after /\
    List.length after = List.length files /\
    NoDup (map fst after) /\
    (forall entry, In entry after -> wanted entry = false) /\
    rename_images after = Completed after.
Proof.
  cbn zeta.
  apply (rename_images_fresh
           [("b.JPG", false); ("a.png", false); ("dir.jpg", true);
            ("notes.txt", false)]%string).
  - change (NoDup (nodup string_dec
                     ["b.JPG"; "a.png"; "dir.jpg"; "notes.txt"]%string)).
    apply NoDup_nodup.
  - vm_compute. lia.
  - intros entry [<-|[<-|[<-|[<-|[]]]]]; reflexivity.
Defined.

(** X19.  When the folder already holds the name that the first file to
    rename is to get (a [001.jpg] left by an earlier run, next to a new
    [a.jpg]), the first [os.rename] of the run is made onto that existing
    name: numbered files are skipped as sources but not as targets. *)
Theorem rename_images_clash (files : Listing) (f : string)
    (rest : list string) :
  to_rename files = f :: rest ->
  In (new_name 1 f) (map fst files) ->
  rename_images files = Clash f (new_name 1 f) files.
Proof.
  intros Hto Hin.
  assert (Hf : In f (to_rename files)) by (rewrite Hto; left; reflexivity).
  pose proof (to_rename_ext files f Hf) as Hext.
  apply to_rename_in in Hf. destruct Hf as [_ Hw].
  assert (Hne : (f =? new_name 1 f)%string = false).
  { apply String.eqb_neq. intros Heq.
    destruct (target_not_wanted 1 f false) as [Hnot _];
      [lia|assumption|]. rewrite <- Heq in Hnot. congruence. }
  unfold rename_images, renames. rewrite Hto.
  cbn [enumerate List.length seq combine map filter].
  rewrite Hne. cbn [negb run_renames].
  destruct (exists_name (new_name 1 f) files) eqn:E; [reflexivity|].
  apply exists_name_false in E. contradiction.
Qed.

Lemma rename_images_clash_witness :
  rename_images [("001.jpg", false); ("b.png", false); ("a.JPG", false)]%string
  = Clash "a.JPG" "001.jpg"
      [("001.jpg", false); ("b.png", false); ("a.JPG", false)]%string.
Proof.
  apply (rename_images_clash
           [("001.jpg", false); ("b.png", false); ("a.JPG", false)]%string
           "a.JPG" ["b.png"]%string).
  - reflexivity.
  - left. reflexivity.
Defined.

(** ** Captions *)

Lemma endswith_append (s suffix : string) :
  endswith (s ++ suffix) suffix = true.
Proof. apply endswith_iff. exists s. reflexivity. Qed.

Lemma lower_append (s t : string) :
  lower (s ++ t) = (lower s ++ lower t)%string.
Proof. induction s as [|c s IH]; cbn; [reflexivity|]. rewrite IH. reflexivity. Qed.

Lemma string_append_assoc (s t u : string) :
  ((s ++ t) ++ u = s ++ (t ++ u))%string.
Proof. induction s as [|c s IH]; cbn; [reflexivity|]. rewrite IH. reflexivity. Qed.

(** Two ways of cutting a string leave the same tail when the tails have
    the same length. *)
Lemma append_same_length (s t u v : string) :
  String.length u = String.length v ->
  (s ++ u = t ++ v)%string -> u = v.
Proof.
  intros Hlen. revert t. induction s as [|x s IH]; intros [|y t] E; cbn in E.
  - assumption.
  - exfalso. rewrite E in Hlen. cbn in Hlen. rewrite length_append in Hlen.
    lia.
  - exfalso. rewrite <- E in Hlen. cbn in Hlen.
    rewrite length_append in Hlen. lia.
  - injection E as _ E. eapply IH. eassumption.
Qed.

Lemma not_endswith (s u w v : string) :
  String.length u = String.length v -> u <> v ->
  endswith (s ++ u) (w ++ v) = false.
Proof.
  intros Hlen Hne. destruct (endswith (s ++ u) (w ++ v)) eqn:E; [|reflexivity].
  apply endswith_iff in E. destruct E as [t E].
  rewrite <- string_append_assoc in E.
  apply append_same_length in E; [contradiction|assumption].
Qed.

Lemma jpeg_test_iff (file_name : string) :
  existsb (endswith (lower file_name)) [".jpg"; ".jpeg"]%string = true <->
  exists stem ext,
    In ext [".jpg"; ".jpeg"]%string /\
    lower file_name = (stem ++ ext)%string.
Proof.
  rewrite existsb_exists. split.
  - intros (ext & Hin & Hends). apply endswith_iff in Hends.
    destruct Hends as [stem Hstem]. exists stem, ext. auto.
  - intros (stem & ext & Hin & Hstem). exists ext. split; [assumption|].
    apply endswith_iff. exists stem. assumption.
Qed.

Lemma not_jpeg_suffix (s : string) :
  existsb (endswith (s ++ ".png")) [".jpg"; ".jpeg"]%string = false /\
  existsb (endswith (s ++ ".bmp")) [".jpg"; ".jpeg"]%string = false /\
  existsb (endswith (s ++ ".webp")) [".jpg"; ".jpeg"]%string = false.
Proof.
  cbn [existsb].
  pose proof (not_endswith s ".png" "" ".jpg") as P1.
  pose proof (not_endswith s ".png" "." "jpeg") as P2.
  pose proof (not_endswith s ".bmp" "" ".jpg") as B1.
  pose proof (not_endswith s ".bmp" "." "jpeg") as B2.
  pose proof (not_endswith (s ++ ".") "webp" "" ".jpg") as W1.
  pose proof (not_endswith (s ++ ".") "webp" "." "jpeg") as W2.
  rewrite string_append_assoc in W1, W2.
  cbn [String.append String.length] in P1, P2, B1, B2, W1, W2.
  rewrite P1, P2, B1, B2, W1, W2 by congruence.
  repeat split; reflexivity.
Qed.

(** X20.  [image_to_base64] announces [image/jpeg] exactly for the files
    whose name, in lower case, ends with [.jpg] or [.jpeg], whatever the
    case of the name, and [image/png] for every other name: for PNG files,
    and also for the BMP and WebP files that [batch_process_images]
    accepts, in any case. *)
Theorem mime_type_by_extension :
  (forall file_name,
     mime_type file_name = "image/jpeg"%string <->
     exists stem ext,
       In ext [".jpg"; ".jpeg"]%string /\
       lower file_name = (stem ++ ext)%string) /\
  (forall file_name,
     ~ (exists stem ext,
          In ext [".jpg"; ".jpeg"]%string /\
          lower file_name = (stem ++ ext)%string) ->
     mime_type file_name = "image/png"%string) /\
  (forall file_name, mime_type (lower file_name) = mime_type file_name) /\
  (forall stem ext,
     In (lower ext) [".jpg"; ".jpeg"]%string ->
     mime_type (stem ++ ext) = "image/jpeg"%string) /\
  (forall stem ext,
     In (lower ext) [".png"; ".bmp"; ".webp"]%string ->
     mime_type (stem ++ ext) = "image/png"%string).
Proof.
  split; [|split; [|split; [|split]]].
  - intros f. rewrite <- jpeg_test_iff. unfold mime_type.
    destruct (existsb (endswith (lower f)) [".jpg"; ".jpeg"]%string);
      split; congruence.
  - intros f Hnot. rewrite <- jpeg_test_iff in Hnot. unfold mime_type.
    destruct (existsb (endswith (lower f)) [".jpg"; ".jpeg"]%string);
      [exfalso; apply Hnot|]; reflexivity.
  - intros f. unfold mime_type. rewrite lower_idem. reflexivity.
  - intros stem ext Hin. unfold mime_type.
    replace (existsb (endswith (lower (stem ++ ext)))
               [".jpg"; ".jpeg"]%string) with true; [reflexivity|].
    symmetry. apply jpeg_test_iff. exists (lower stem), (lower ext).
    split; [assumption|apply lower_append].
  - intros stem ext Hin. unfold mime_type. rewrite lower_append.
    destruct (not_jpeg_suffix (lower stem)) as (Hpng & Hbmp & Hwebp).
    destruct Hin as [<-|[<-|[<-|[]]]].
    + rewrite Hpng. reflexivity.
    + rewrite Hbmp. reflexivity.
    + rewrite Hwebp. reflexivity.
Qed.

Lemma mime_type_by_extension_witness :
  mime_type "scan.BMP" = "image/png"%string /\
  mime_type "photo.JPG" = "image/jpeg"%string /\
  mime_type "notes.txt" = "image/png"%string.
Proof.
  split; [|split].
  - apply (proj2 (proj2 (proj2 (proj2 mime_type_by_extension)))
             "scan"%string ".BMP"%string).
    right. left. reflexivity.
  - apply (proj1 (proj2 (proj2 (proj2 mime_type_by_extension)))
             "photo"%string ".JPG"%string).
    left. reflexivity.
  - apply (proj1 (proj2 mime_type_by_extension) "notes.txt"%string).
    intros Hex. apply (proj2 (jpeg_test_iff "notes.txt")) in Hex.
    discriminate Hex.
Defined.

(** X21.  [process_image] of [tagger.py] writes a caption file exactly
    when the image could be read, the service answered, its first choice
    carries a non-empty text and the write succeeds; the file is the image
    path with its extension replaced by [.txt] and holds that text.  A
    failure of the read or of the service, an empty list of choices, a
    missing or an empty text all lead to no caption. *)
Theorem caption_written_iff
    (sv : Service) (image_path : path) (api_key : string)
    (p : path) (text : string) :
  In (WriteText p text) (fst (Tagger.process_image sv image_path api_key))
  <->
  p = txt_path image_path /\ text <> EmptyString /\
  (exists url rest,
     image_to_base64 sv image_path = inl url /\
     chat_completion sv api_key url = inl (Some text :: rest)) /\
  write_text sv (txt_path image_path) text = inl tt.
Proof.
  split.
  - unfold Tagger.process_image, describe_image.
    destruct (image_to_base64 sv image_path) as [url|f] eqn:Hurl;
      [|cbn; intros [H|[H|[H|[]]]]; discriminate].
    destruct (chat_completion sv api_key url) as [[|[content|] rest]|f]
      eqn:Hchat; cbn;
      try (intros [H|[H|[H|[]]]]; discriminate);
      try (intros [H|[H|[]]]; discriminate).
    destruct (String.eqb_spec content EmptyString) as [->|Hne]; cbn;
      [intros [H|[H|[]]]; discriminate|].
    destruct (write_text sv (txt_path image_path) content) as [[]|f]
      eqn:Hwrite; cbn; [|intros [H|[]]; discriminate].
    intros [H|[H|[H|[]]]]; try discriminate.
    injection H as <- <-. repeat split; try assumption.
    exists url, rest. auto.
  - intros (-> & Hne & (url & rest & Hurl & Hchat) & Hw).
    unfold Tagger.process_image, describe_image.
    rewrite Hurl, Hchat. apply String.eqb_neq in Hne. rewrite Hne, Hw.
    cbn. right. left. reflexivity.
Qed.

(** X22.  [process_image] of [tagger.py] raises only when the write of the
    caption raises: failures of the read and of the service are printed and
    the image is skipped. *)
Theorem caption_failure_only_from_write
    (sv : Service) (image_path : path) (api_key : string) (f : failure) :
  snd (Tagger.process_image sv image_path api_key) = inr f ->
  exists text, write_text sv (txt_path image_path) text = inr f.
Proof.
  unfold Tagger.process_image.
  destruct (describe_image sv image_path api_key) as [log [text|]];
    [|discriminate].
  destruct (text =? EmptyString)%string; [discriminate|].
  destruct (write_text sv (txt_path image_path) text) as [[]|f'] eqn:Hw;
    [discriminate|].
  intros [= <-]. exists text. assumption.
Qed.

Lemma caption_failure_only_from_write_witness :
  let sv := {| read_base64 := fun _ => inl "AAAA"%string;
               chat_completion := fun _ _ => inl [Some "a cat"%string];
               write_text := fun _ _ => inr FileError |} in
  exists text, write_text sv (txt_path ["d"; "a.jpg"]%string) text
               = inr FileError.
Proof.
  cbn zeta.
  apply (caption_failure_only_from_write
           {| read_base64 := fun _ => inl "AAAA"%string;
              chat_completion := fun _ _ => inl [Some "a cat"%string];
              write_text := fun _ _ => inr FileError |}
           ["d"; "a.jpg"]%string "key"%string FileError).
  reflexivity.
Defined.

Lemma txt_name_append (stem e : string) :
  all_dots stem = false -> last_dot e = None ->
  txt_name (stem ++ String "." e) = (stem ++ ".txt")%string.
Proof.
  intros Hstem He. unfold txt_name.
  rewrite (splitext_append stem e Hstem He). reflexivity.
Qed.

Lemma txt_name_numbered (idx : nat) (f : string) :
  existsb (String.eqb (lower (snd (splitext f)))) image_extensions = true ->
  txt_name (new_name idx f) = (format_03d idx ++ ".txt")%string.
Proof.
  intros Hext. apply image_extension_shape in Hext.
  destruct Hext as (e & He & Hdot). unfold new_name. rewrite He.
  apply txt_name_append; [apply format_03d_not_dots|assumption].
Qed.

Lemma numbered_captions_NoDup (l : list string) :
  (forall f, In f l ->
     existsb (String.eqb (lower (snd (splitext f)))) image_extensions
     = true) ->
  forall start,
    NoDup (map (fun op : string * string => txt_name (snd op))
               (map (fun '(idx, filename) =>
                       (filename, new_name idx filename))
                    (enumerate start l))).
Proof.
  unfold enumerate. induction l as [|f rest IH]; intros Hext start;
    [constructor|].
  cbn [List.length seq combine map snd]. constructor.
  - intros Hin. apply in_map_iff in Hin.
    destruct Hin as ([old new] & Hnew & Hin). cbn [snd] in Hnew.
    apply in_map_iff in Hin. destruct Hin as ([j g] & [= <- <-] & Hin).
    pose proof (in_combine_l _ _ _ _ Hin) as Hj. apply in_seq in Hj.
    pose proof (in_combine_r _ _ _ _ Hin) as Hg.
    rewrite !txt_name_numbered in Hnew
      by (apply Hext; first [left; reflexivity | right; assumption]).
    apply digits_then_dot in Hnew; try apply format_03d_digits.
    apply format_03d_inj in Hnew. lia.
  - apply IH. intros g Hg. apply Hext. right. assumption.
Qed.

(** X23.  The caption of an image is named after its stem alone, so two
    images that differ only by their extension share one caption file;
    the names [rename_images] gives never do: the captions of the renamed
    files are pairwise distinct. *)
Theorem caption_names (files : Listing) :
  (forall stem e1 e2,
     all_dots stem = false -> last_dot e1 = None -> last_dot e2 = None ->
     txt_name (stem ++ String "." e1) = txt_name (stem ++ String "." e2)) /\
  NoDup (map (fun op : string * string => txt_name (snd op))
             (renames files)).
Proof.
  split.
  - intros stem e1 e2 Hstem H1 H2. rewrite !txt_name_append by assumption.
    reflexivity.
  - unfold renames. apply NoDup_map_filter. apply numbered_captions_NoDup.
    intros f Hin. apply (to_rename_ext files f Hin).
Qed.

Lemma caption_names_witness :
  txt_name "cat.jpg" = txt_name "cat.png".
Proof.
  apply (proj1 (caption_names []) "cat"%string "jpg"%string "png"%string);
    reflexivity.
Defined.

(** ** The cropping stage of [batch_process_images] *)

Lemma crop_logs_count (w : World) (out : path -> path)
    (target_size : Z * Z) (l : list path) :
  let log :=
    flat_map (fun p => fst (Pipeline.process_image w p (out p) target_size))
             l in
  (count_events is_write log + count_events is_error log
   <= List.length l)%nat /\
  count_events is_error log =
    List.length
      (filter (fun p => negb (returns (process_image_body w p (out p)
                                        target_size))) l).
Proof.
  cbn zeta. induction l as [|p rest [IHs IHe]];
    [split; [apply Nat.le_refl|reflexivity]|].
  cbn [flat_map List.length filter]. rewrite !count_events_app.
  destruct (process_image_counts w p (out p) target_size) as [Hw He].
  rewrite He, IHe.
  destruct (returns _); cbn [negb List.length]; split; lia.
Qed.

(** X24.  The cropping stage of [batch_process_images] stops at once when
    the folder [output] cannot be created; otherwise it never raises, and
    it queues one cropped path per image file for captioning, whether or
    not an image was written there: an image whose cropping raised is
    logged once and still queued, and the images written and the errors
    logged together never exceed the paths queued. *)
Theorem crop_stage_queues_every_image
    (w : World) (folder_path : path) (names : list string)
    (target_size : Z * Z) :
  let temp_folder := folder_path ++ ["output"%string] in
  let out image_path := temp_folder ++ [last image_path ""%string] in
  let run := crop_stage w folder_path names target_size in
  (forall e, makedirs w temp_folder = Raises e -> run = ([], Raises e)) /\
  (makedirs w temp_folder = Returns tt ->
   exists cropped_files,
     snd run = Returns cropped_files /\
     cropped_files = map out (image_files folder_path names) /\
     count_events is_error (fst run) =
       List.length
         (filter (fun p => negb (returns (process_image_body w p (out p)
                                           target_size)))
                 (image_files folder_path names)) /\
     (count_events is_write (fst run) + count_events is_error (fst run)
      <= List.length cropped_files)%nat).
Proof.
  cbn zeta. unfold crop_stage. split.
  - intros e He. rewrite He. reflexivity.
  - intros Hmk. rewrite Hmk.
    rewrite for_each_total by (intros p; apply process_image_returns).
    cbn [bind call emit ret app fst snd].
    eexists. split; [reflexivity|]. split; [reflexivity|].
    rewrite length_map.
    change (EvMakedirs (folder_path ++ ["output"%string])
            :: ?l ++ [])
      with ([EvMakedirs (folder_path ++ ["output"%string])] ++ l ++ []).
    rewrite app_nil_r, !count_events_app. cbn [count_events filter
      is_write is_error List.length Nat.add].
    destruct (crop_logs_count w
                (fun image_path =>
                   (folder_path ++ ["output"%string])
                     ++ [last image_path ""%string])
                target_size (image_files folder_path names)) as [Hs He].
    split; [exact He|exact Hs].
Qed.

Lemma crop_stage_queues_every_image_witness :
  let w := {| walk := fun _ => [];
              imread := fun p =>
                if Examples.path_eqb p ["d"; "bad.webp"]%string then None
                else Some Examples.photo;
              makedirs := fun _ => Returns tt;
              imwrite := fun _ => Returns true |} in
  let out image_path :=
    ["d"; "output"]%string ++ [last image_path ""%string] in
  let files := image_files ["d"]%string
                 ["a.jpg"; "bad.webp"; "notes.txt"; "c.BMP"]%string in
  let run := crop_stage w ["d"]%string
               ["a.jpg"; "bad.webp"; "notes.txt"; "c.BMP"]%string
               (512, 512) in
  exists cropped_files,
    snd run = Returns cropped_files /\
    cropped_files = map out files /\
    count_events is_error (fst run) =
      List.length
        (filter (fun p => negb (returns (process_image_body w p (out p)
                                          (512, 512)))) files) /\
    (count_events is_write (fst run) + count_events is_error (fst run)
     <= List.length cropped_files)%nat.
Proof.
  cbn zeta.
  apply (crop_stage_queues_every_image
           {| walk := fun _ => [];
              imread := fun p =>
                if Examples.path_eqb p ["d"; "bad.webp"]%string then None
                else Some Examples.photo;
              makedirs := fun _ => Returns tt;
              imwrite := fun _ => Returns true |}
           ["d"]%string ["a.jpg"; "bad.webp"; "notes.txt"; "c.BMP"]%string
           (512, 512)).
  reflexivity.
Defined.

(** ** Ties between faces, and images of the target size *)

(** [max_from] keeps [best] unless a later element has a strictly larger
    key, and then returns the first element of largest key. *)
Lemma max_from_first {A} (key : A -> Z) (l : list A) :
  forall best,
    (max_from Zgt key best l = best /\
     forall y, In y l -> key y <= key best) \/
    (exists pre post,
       l = (pre ++ max_from Zgt key best l :: post)%list /\
       key best < key (max_from Zgt key best l) /\
       (forall y, In y pre -> key y < key (max_from Zgt key best l)) /\
       (forall y, In y post -> key y <= key (max_from Zgt key best l))).
Proof.
  induction l as [|x rest IH]; intros best; cbn [max_from].
  - left. split; [reflexivity|]. intros y [].
  - destruct (Zgt (key x) (key best)) eqn:E; unfold Zgt in E;
      [apply Z.ltb_lt in E|apply Z.ltb_ge in E].
    + right. destruct (IH x) as [[Hb Hall]|(pre & post & Heq & Hlt & Hpre & Hpost)].
      * exists [], rest. rewrite Hb. cbn [app].
        split; [reflexivity|]. split; [assumption|].
        split; [intros y []|assumption].
      * exists (x :: pre), post. cbn [app]. split; [f_equal; exact Heq|].
        split; [lia|]. split; [|assumption].
        intros y [<-|Hy]; [assumption|apply Hpre; assumption].
    + destruct (IH best) as [[Hb Hall]|(pre & post & Heq & Hlt & Hpre & Hpost)].
      * left. split; [assumption|].
        intros y [<-|Hy]; [lia|apply Hall; assumption].
      * right. exists (x :: pre), post. cbn [app].
        split; [f_equal; exact Heq|]. split; [assumption|].
        split; [|assumption].
        intros y [<-|Hy]; [lia|apply Hpre; assumption].
Qed.

(** X25.  Among several faces, the focus box is the first one of largest
    area in the order of detection: every face before it is strictly
    smaller, none after it is larger. *)
Theorem first_largest_face (image : Image) (faces : list Rect) :
  detectMultiScale image = Returns faces -> faces <> [] ->
  exists pre box post,
    faces = (pre ++ box :: post)%list /\
    get_focus_box image = ([EvDetectFaces], Returns (Some box)) /\
    (forall f, In f pre -> face_area f < face_area box) /\
    (forall f, In f post -> face_area f <= face_area box).
Proof.
  intros Hd Hne. destruct faces as [|f0 rest]; [congruence|].
  assert (Hfocus : get_focus_box image =
                   ([EvDetectFaces],
                    Returns (Some (max_from Zgt face_area f0 rest)))).
  { apply (get_focus_box_face image (f0 :: rest)); [assumption|reflexivity]. }
  destruct (max_from_first face_area rest f0)
    as [[Hb Hall]|(pre & post & Heq & Hlt & Hpre & Hpost)].
  - exists [], f0, rest. rewrite Hfocus, Hb. cbn [app].
    split; [reflexivity|]. split; [reflexivity|].
    split; [intros f []|assumption].
  - exists (f0 :: pre), (max_from Zgt face_area f0 rest), post. cbn [app].
    split; [f_equal; exact Heq|]. split; [assumption|].
    split; [|assumption].
    intros f [<-|Hf]; [assumption|apply Hpre; assumption].
Qed.

Lemma first_largest_face_witness :
  exists pre box post,
    [(0, 0, 10, 40); (5, 5, 20, 20); (9, 9, 40, 10)]
    = (pre ++ box :: post)%list /\
    get_focus_box
      {| shape := (100, 100);
         detectMultiScale :=
           Returns [(0, 0, 10, 40); (5, 5, 20, 20); (9, 9, 40, 10)];
         computeSaliency := Returns false;
         findContours := Returns [] |}
    = ([EvDetectFaces], Returns (Some box)) /\
    (forall f, In f pre -> face_area f < face_area box) /\
    (forall f, In f post -> face_area f <= face_area box).
Proof.
  apply (first_largest_face
           {| shape := (100, 100);
              detectMultiScale :=
                Returns [(0, 0, 10, 40); (5, 5, 20, 20); (9, 9, 40, 10)];
              computeSaliency := Returns false;
              findContours := Returns [] |});
    [reflexivity|discriminate].
Defined.

Lemma same_size_plan (subject : option Rect) (W H : Z) :
  plan_crop subject (W, H) (W, H) = (0, 0, W, H).
Proof.
  destruct subject as [[[[fx fy] fw] fh]|]; unfold plan_crop.
  - rewrite calculate_crop_region_Z. repeat f_equal; lia.
  - rewrite center_crop_Z. repeat f_equal; quot_lia.
Qed.

(** ** The branches of [process_image] *)

(** An event of the body is the read, or comes from one of the two
    branches: the undersized one, which slices nothing and calls no
    detector, or the other, which prints no warning and slices only a
    crop planned for the image and the target. *)
Lemma body_branch
    (w : World) (input_path output_path : path) (target_w target_h : Z)
    (ev : event) :
  In ev (fst (process_image_body w input_path output_path
                (target_w, target_h))) ->
  ev = EvImread input_path \/
  exists image H W,
    imread w input_path = Some image /\ shape image = (H, W) /\
    (((W <? target_w) || (H <? target_h) = true /\
      is_slice ev = false /\ is_detect ev = false) \/
     ((W <? target_w) || (H <? target_h) = false /\
      is_warn ev = false /\
      forall r, ev = EvSlice r ->
        exists focus, r = plan_crop focus (W, H) (target_w, target_h))).
Proof.
  intros Hin. unfold process_image_body in Hin.
  apply in_fst_bind in Hin. destruct Hin as [Hin|(? & _ & Hin)].
  { left. cbn in Hin. destruct Hin as [<-|[]]. reflexivity. }
  right. apply in_fst_bind in Hin.
  destruct (imread w input_path) as [image|] eqn:Hread;
    [|cbn in Hin; destruct Hin as [[]|(? & ? & _)]; discriminate].
  destruct Hin as [[]|(image' & Himage & Hin)].
  cbn in Himage. injection Himage as <-.
  destruct (shape image) as [H W] eqn:Hshape.
  exists image, H, W. split; [reflexivity|]. split; [exact Hshape|].
  destruct ((W <? target_w) || (H <? target_h)) eqn:Hsmall.
  - left. split; [reflexivity|]. unfold save in Hin. log_inv Hin.
    all: try (subst ev; split; reflexivity).
    all: apply in_resize in Hin; destruct Hin as [s ->]; split; reflexivity.
  - right. split; [reflexivity|].
    apply in_fst_bind in Hin. destruct Hin as [Hin|(focus & _ & Hin)].
    { unfold get_focus_box, detect_faces, detect_saliency in Hin.
      log_inv Hin.
      all: subst ev; split; [reflexivity|intros r; discriminate]. }
    apply in_fst_bind in Hin. destruct Hin as [Hin|(cropped & _ & Hin)].
    { unfold slice in Hin.
      destruct (plan_crop focus (W, H) (target_w, target_h))
        as [[[rx ry] rw] rh] eqn:Hplan.
      rewrite Hshape in Hin. cbn in Hin. destruct Hin as [<-|[]].
      split; [reflexivity|]. intros r [= <-]. exists focus.
      symmetry. exact Hplan. }
    unfold save in Hin. log_inv Hin.
    all: try (subst ev; split; [reflexivity|intros r; discriminate]).
    all: apply in_resize in Hin; destruct Hin as [s ->];
      split; [reflexivity|intros r; discriminate].
Qed.

Lemma in_process_image
    (w : World) (input_path output_path : path) (target_size : Z * Z)
    (ev : event) :
  In ev (fst (Pipeline.process_image w input_path output_path target_size)) ->
  In ev (fst (process_image_body w input_path output_path target_size)) \/
  exists e,
    ev = EvError input_path e /\
    snd (process_image_body w input_path output_path target_size)
    = Raises e.
Proof.
  unfold Pipeline.process_image, try_except.
  destruct (process_image_body w input_path output_path target_size)
    as [l [[]|e]]; cbn [fst snd emit]; [auto|].
  intros Hin. apply in_app_iff in Hin. destruct Hin as [Hin|[<-|[]]];
    [left; assumption|right; exists e; auto].
Qed.



Lemma count_none (f : event -> bool) (l : list event) :
  (forall ev, In ev l -> f ev = false) -> count_events f l = 0%nat.
Proof.
  intros Hall. unfold count_events. rewrite filter_none by assumption.
  reflexivity.
Qed.

(** X26.  An image that has exactly the target size takes the cropping
    branch, not the undersized one: [process_image] prints no warning for
    it, and the only crop it slices is the whole image (0, 0, W, H),
    wherever the subject is; it does slice it when detection returns. *)
Theorem same_size_crop_is_whole_image
    (w : World) (input_path output_path : path) (image : Image) (W H : Z) :
  imread w input_path = Some image -> shape image = (H, W) ->
  let log := fst (Pipeline.process_image w input_path output_path (W, H)) in
  count_events is_warn log = 0%nat /\
  (forall r, In (EvSlice r) log -> r = (0, 0, W, H)) /\
  (forall pre subject,
     get_focus_box image = (pre, Returns subject) ->
     In (EvSlice (0, 0, W, H)) log).
Proof.
  intros Hread Hshape. cbn zeta.
  assert (Hcases : forall ev,
            In ev (fst (Pipeline.process_image w input_path output_path (W, H))) ->
            is_warn ev = false /\
            forall r, ev = EvSlice r -> r = (0, 0, W, H)).
  { intros ev Hin. apply in_process_image in Hin.
    destruct Hin as [Hin|(e & -> & _)];
      [|split; [reflexivity|intros r; discriminate]].
    apply body_branch in Hin.
    destruct Hin as [->|(image' & H' & W' & Hread' & Hshape' & Hcase)];
      [split; [reflexivity|intros r; discriminate]|].
    rewrite Hread in Hread'. injection Hread' as <-.
    rewrite Hshape in Hshape'. injection Hshape' as <- <-.
    rewrite !Z.ltb_irrefl in Hcase. cbn [orb] in Hcase.
    destruct Hcase as [(Hc & _)|(_ & Hwarn & Hplan)]; [discriminate|].
    split; [assumption|]. intros r Hr.
    destruct (Hplan r Hr) as [focus ->]. apply same_size_plan. }
  split; [|split].
  - apply count_none. intros ev Hin. apply (Hcases ev Hin).
  - intros r Hin. apply (Hcases _ Hin). reflexivity.
  - intros pre subject Hfocus.
    rewrite <- (same_size_plan subject W H).
    apply (process_image_slices w input_path output_path image W H W H
             pre subject Hread Hshape); [lia|lia|assumption].
Qed.

Lemma same_size_crop_is_whole_image_witness :
  let log := fst (Pipeline.process_image Examples.folder ["in"; "a.jpg"]%string
                    ["out"; "a.jpg"]%string (800, 600)) in
  count_events is_warn log = 0%nat /\
  (forall r, In (EvSlice r) log -> r = (0, 0, 800, 600)) /\
  (forall pre subject,
     get_focus_box Examples.photo = (pre, Returns subject) ->
     In (EvSlice (0, 0, 800, 600)) log).
Proof.
  apply (same_size_crop_is_whole_image Examples.folder
           ["in"; "a.jpg"]%string ["out"; "a.jpg"]%string
           Examples.photo 800 600); reflexivity.
Defined.

(** ** A write that fails without raising *)

Lemma quiet_save_unwritten (w : World) (output_path : path) (resized : Image) :
  imwrite w output_path = Returns false ->
  quiet (save w output_path resized).
Proof.
  intros Hi. unfold save. rewrite Hi.
  destruct (makedirs w (dirname output_path)) as [[]|e]; split; reflexivity.
Qed.

Lemma quiet_body_unwritten
    (w : World) (input_path output_path : path) (target_size : Z * Z) :
  imwrite w output_path = Returns false ->
  quiet (process_image_body w input_path output_path target_size).
Proof.
  intros Hi. unfold process_image_body.
  apply quiet_bind; [quiet_step|intros _].
  apply quiet_bind; [destruct (imread w input_path); quiet_step|intros image].
  destruct (shape image) as [img_h img_w], target_size as [target_w target_h].
  destruct ((img_w <? target_w) || (img_h <? target_h)).
  - apply quiet_bind; [quiet_step|intros _].
    apply quiet_bind; [apply quiet_resize|intros resized].
    apply quiet_save_unwritten. assumption.
  - apply quiet_bind; [apply quiet_get_focus_box|intros focus_box].
    apply quiet_bind; [apply quiet_slice|intros cropped].
    apply quiet_bind; [apply quiet_resize|intros resized].
    apply quiet_save_unwritten. assumption.
Qed.

Lemma unwritten_file_inv
    (w : World) (input_dir output_dir input_path : path)
    (target_w target_h : Z) :
  0 < target_w -> 0 < target_h ->
  unwritten_file w input_dir output_dir input_path = true ->
  imwrite w (output_path_of input_dir output_dir input_path) = Returns false
  /\
  returns (process_image_body w input_path
             (output_path_of input_dir output_dir input_path)
             (target_w, target_h)) = true.
Proof.
  intros Htw Hth Hun. unfold unwritten_file in Hun.
  destruct (imread w input_path) as [image|] eqn:Hread; [|discriminate].
  rewrite !andb_true_iff, !Z.ltb_lt in Hun.
  destruct Hun as [[[[[[Hrows Hcols] Hf] Hs] Hc] Hm] Hi].
  assert (Hfalse : imwrite w (output_path_of input_dir output_dir input_path)
                   = Returns false).
  { destruct (imwrite w (output_path_of input_dir output_dir input_path))
      as [[|]|]; congruence. }
  split; [assumption|].
  apply (body_returns_unless_raise w input_path _ image); try assumption.
  rewrite Hfalse. reflexivity.
Qed.

(** C5 (P7, batch isolation), where the code departs from it.  When an
    image goes through the pipeline and [cv2.imwrite] answers [False], the
    image has failed: no output is written.  Yet nothing is caught and
    nothing is logged: [process_image] returns with no image written and
    no error in its log, and the log of the whole batch holds no error for
    that file.  (The batch itself still returns.) *)
Theorem write_failure_is_silent
    (w : World) (input_dir output_dir : path) (target_w target_h : Z)
    (recursive : bool) (input_path : path) :
  0 < target_w -> 0 < target_h ->
  In input_path (collect_files w input_dir recursive) ->
  unwritten_file w input_dir output_dir input_path = true ->
  let one := Pipeline.process_image w input_path
               (output_path_of input_dir output_dir input_path)
               (target_w, target_h) in
  let run := bulk_process w input_dir output_dir (target_w, target_h)
               recursive in
  snd one = Returns tt /\
  count_events is_write (fst one) = 0%nat /\
  count_events is_error (fst one) = 0%nat /\
  snd run = Returns tt /\
  (forall e, ~ In (EvError input_path e) (fst run)).
Proof.
  intros Htw Hth Hfile Hun. cbn zeta.
  destruct (unwritten_file_inv w input_dir output_dir input_path
              target_w target_h Htw Hth Hun) as [Hfalse Hret].
  split; [apply process_image_returns|].
  assert (Hone : count_events is_write
                   (fst (Pipeline.process_image w input_path
                           (output_path_of input_dir output_dir input_path)
                           (target_w, target_h))) = 0%nat /\
                 count_events is_error
                   (fst (Pipeline.process_image w input_path
                           (output_path_of input_dir output_dir input_path)
                           (target_w, target_h))) = 0%nat).
  { destruct (quiet_body_unwritten w input_path
                (output_path_of input_dir output_dir input_path)
                (target_w, target_h) Hfalse) as [Qw Qe].
    unfold Pipeline.process_image, try_except, returns in *.
    destruct (process_image_body w input_path
                (output_path_of input_dir output_dir input_path)
                (target_w, target_h)) as [l [[]|e]]; cbn [fst snd] in *;
      [split; assumption|discriminate]. }
  split; [apply Hone|]. split; [apply Hone|].
  unfold bulk_process.
  rewrite for_each_total by (intros q; apply process_image_returns).
  cbn [fst snd]. split; [reflexivity|].
  intros e Hin. apply in_flat_map in Hin. destruct Hin as (q & _ & Hin).
  apply in_process_image in Hin. destruct Hin as [Hin|(e' & Heq & Hraise)].
  - destruct (body_log w q (output_path_of input_dir output_dir q)
                target_w target_h) as (tail & Hlog & Htail).
    rewrite Hlog in Hin. destruct Hin as [Hin|Hin]; [discriminate|].
    destruct (Htail _ Hin) as (_ & He & _). discriminate.
  - injection Heq as <- <-. unfold returns in Hret. rewrite Hraise in Hret.
    discriminate.
Qed.

Lemma write_failure_is_silent_witness :
  let one := Pipeline.process_image Examples.folder_unwritable
               ["in"; "a.jpg"]%string ["out"; "a.jpg"]%string (512, 512) in
  let run := bulk_process Examples.folder_unwritable ["in"]%string
               ["out"]%string (512, 512) true in
  snd one = Returns tt /\
  count_events is_write (fst one) = 0%nat /\
  count_events is_error (fst one) = 0%nat /\
  snd run = Returns tt /\
  (forall e, ~ In (EvError ["in"; "a.jpg"]%string e) (fst run)).
Proof.
  apply (write_failure_is_silent Examples.folder_unwritable ["in"]%string
           ["out"]%string 512 512 true ["in"; "a.jpg"]%string);
    try reflexivity.
  left. reflexivity.
Defined.
